(** * competitorNewsFeed: the fetch / filter / dedup pipeline of monitor_news.py

    A shallow embedding of [monitor_news.py] and the properties of its
    relevance filter, its per-source fetcher and its ledger.

    Modelling conventions.
    - A Python [str] is a [string]: a sequence of 8-bit characters.  Case
      folding ([str.lower]) and whitespace ([str.strip]) are the ASCII ones.
    - A timestamp (Python [float] seconds since the epoch) is an integer [Z]
      number of seconds; [0] is the only falsy timestamp.
    - [seen], the dict the program mutates in place, is a [gmap string Z]
      threaded through the computation; it is part of the state also when an
      exception propagates.
    - The wall clock is a sequence of readings [nat -> Z]; each call of
      [time.time()] or [datetime.now()] consumes the next reading.
    - What [feedparser], [requests] and [BeautifulSoup] return for a URL is
      given by a [Web] record: the parsed view of the document, not its
      bytes.
    - [urlparse] raises [ValueError] on a bracket without its partner in the
      network location; what the library rejects beyond that is an answer
      of the [Web] record.
    - The time zone is a [Zone] record: the offset in force at a timestamp
      and the offset given to a wall-clock time. *)

From Stdlib Require Import ZArith NArith Lia Bool List Ascii String Sorted Permutation.
From stdpp Require Import base option list gmap strings.

Local Open Scope string_scope.
Local Open Scope Z_scope.
Local Open Scope list_scope.

(** ** Strings *)

Module Str.

(** [c.lower()] on one ASCII character. *)
Definition lower_ascii (c : ascii) : ascii :=
  let n := N_of_ascii c in
  if ((65 <=? n) && (n <=? 90))%N then ascii_of_N (n + 32) else c.

(** [s.lower()] *)
Fixpoint lower (s : string) : string :=
  match s with
  | EmptyString => EmptyString
  | String c r => String (lower_ascii c) (lower r)
  end.

(** [s.startswith(p)] *)
Fixpoint startswith (p s : string) : bool :=
  match p, s with
  | EmptyString, _ => true
  | String a p', String b s' => if ascii_dec a b then startswith p' s' else false
  | String _ _, EmptyString => false
  end.

(** [k in s], Python's substring test. *)
Fixpoint contains (k s : string) : bool :=
  match s with
  | EmptyString => startswith k EmptyString
  | String _ s' => startswith k s || contains k s'
  end.

(** [s[:n]] *)
Fixpoint take (n : nat) (s : string) : string :=
  match n, s with
  | O, _ => EmptyString
  | S _, EmptyString => EmptyString
  | S n', String c r => String c (take n' r)
  end.

(** [s[n:]] *)
Fixpoint drop (n : nat) (s : string) : string :=
  match n, s with
  | O, _ => s
  | S _, EmptyString => EmptyString
  | S n', String _ r => drop n' r
  end.

(** The first index at which [c] occurs in [s], as [s.find(c)] gives it
    ([None] for Python's -1). *)
Fixpoint find_char (c : ascii) (s : string) : option nat :=
  match s with
  | EmptyString => None
  | String a r => if ascii_dec a c then Some O else S <$> find_char c r
  end.

(** The first index at which a character satisfying [p] occurs. *)
Fixpoint find_if (p : ascii -> bool) (s : string) : option nat :=
  match s with
  | EmptyString => None
  | String a r => if p a then Some O else S <$> find_if p r
  end.

Fixpoint forallb (p : ascii -> bool) (s : string) : bool :=
  match s with
  | EmptyString => true
  | String a r => p a && forallb p r
  end.

Definition is_empty (s : string) : bool :=
  match s with EmptyString => true | _ => false end.

(** ASCII white space, the characters [str.strip()] removes. *)
Definition is_space (c : ascii) : bool :=
  let n := N_of_ascii c in
  (((9 <=? n) && (n <=? 13)) || ((28 <=? n) && (n <=? 32)))%N.

Fixpoint lstrip (s : string) : string :=
  match s with
  | EmptyString => EmptyString
  | String c r => if is_space c then lstrip r else s
  end.

(** Removes trailing white space: a character is kept when it is not white
    space or something is kept after it. *)
Fixpoint rstrip (s : string) : string :=
  match s with
  | EmptyString => EmptyString
  | String c r =>
      match rstrip r with
      | EmptyString => if is_space c then EmptyString else String c EmptyString
      | r' => String c r'
      end
  end.

(** [s.strip()] *)
Definition strip (s : string) : string := rstrip (lstrip s).

(** [s.replace("www.", "")] *)
Fixpoint remove_www (s : string) : string :=
  match s with
  | String "w" (String "w" (String "w" (String "." r))) => remove_www r
  | String c r => String c (remove_www r)
  | EmptyString => EmptyString
  end.

(** [x or d] on strings: the empty string is falsy. *)
Definition or_else (x d : string) : string :=
  if is_empty x then d else x.

End Str.

(** [o.get(key) or d] where the value, when present, is a string. *)
Definition get_or (o : option string) (d : string) : string :=
  match o with
  | Some s => Str.or_else s d
  | None => d
  end.

(** Truthiness of [o.get(key)] for a string-valued key. *)
Definition truthy (o : option string) : bool :=
  match o with
  | Some s => negb (Str.is_empty s)
  | None => false
  end.

(** ** SHA-1 ([hashlib.sha1]), on 32-bit words held in [Z] *)

Module Sha1.

Definition w32 (x : Z) : Z := Z.land x 0xFFFFFFFF.

Definition rotl (n x : Z) : Z :=
  w32 (Z.lor (Z.shiftl x n) (Z.shiftr x (32 - n))).

(** [s.encode("utf-8")]: the characters of the model are the bytes. *)
Definition encode (s : string) : list Z :=
  (fun c => Z.of_N (N_of_ascii c)) <$> list_ascii_of_string s.

Definition be64 (n : Z) : list Z :=
  (fun i => Z.land (Z.shiftr n (8 * i)) 255) <$> [7; 6; 5; 4; 3; 2; 1; 0].

(** Padding: a 1 bit, zeros up to 56 modulo 64 bytes, the bit length. *)
Definition pad (m : list Z) : list Z :=
  let len := Z.of_nat (length m) in
  m ++ [128] ++ replicate (Z.to_nat ((55 - len) mod 64)) 0 ++ be64 (8 * len).

Fixpoint words (bs : list Z) : list Z :=
  match bs with
  | a :: b :: c :: d :: r =>
      Z.lor (Z.shiftl a 24) (Z.lor (Z.shiftl b 16) (Z.lor (Z.shiftl c 8) d))
      :: words r
  | _ => []
  end.

Fixpoint blocks (n : nat) (ws : list Z) : list (list Z) :=
  match n with
  | O => []
  | S n' => take 16 ws :: blocks n' (drop 16 ws)
  end.

(** The message schedule, built back to front: the head of [r] is the
    word computed last. *)
Fixpoint extend (n : nat) (r : list Z) : list Z :=
  match n with
  | O => r
  | S n' =>
      let w := Z.lxor (Z.lxor (nth 2 r 0) (nth 7 r 0))
                      (Z.lxor (nth 13 r 0) (nth 15 r 0)) in
      extend n' (rotl 1 w :: r)
  end.

Definition schedule (block : list Z) : list Z :=
  rev (extend 64 (rev block)).

Definition regs : Type := Z * Z * Z * Z * Z.

Definition round (i : Z) (s : regs) (w : Z) : regs :=
  let '(a, b, c, d, e) := s in
  let '(f, k) :=
    if i <? 20 then
      (Z.lor (Z.land b c) (Z.land (Z.lxor b 0xFFFFFFFF) d), 0x5A827999)
    else if i <? 40 then
      (Z.lxor b (Z.lxor c d), 0x6ED9EBA1)
    else if i <? 60 then
      (Z.lor (Z.land b c) (Z.lor (Z.land b d) (Z.land c d)), 0x8F1BBCDC)
    else
      (Z.lxor b (Z.lxor c d), 0xCA62C1D6) in
  (w32 (rotl 5 a + f + e + k + w), a, rotl 30 b, c, d).

Fixpoint rounds (i : Z) (s : regs) (ws : list Z) : regs :=
  match ws with
  | [] => s
  | w :: ws' => rounds (i + 1) (round i s w) ws'
  end.

Definition compress (h : regs) (block : list Z) : regs :=
  let '(a, b, c, d, e) := rounds 0 h (schedule block) in
  let '(h0, h1, h2, h3, h4) := h in
  (w32 (h0 + a), w32 (h1 + b), w32 (h2 + c), w32 (h3 + d), w32 (h4 + e)).

Definition init : regs :=
  (0x67452301, 0xEFCDAB89, 0x98BADCFE, 0x10325476, 0xC3D2E1F0).

Definition digest (m : list Z) : regs :=
  let ws := words (pad m) in
  fold_left compress (blocks (length ws / 16) ws) init.

Definition hex_digit (n : Z) : ascii :=
  if n <? 10 then ascii_of_N (Z.to_N (48 + n)) else ascii_of_N (Z.to_N (87 + n)).

Definition hex32 (x : Z) : string :=
  string_of_list_ascii
    ((fun i => hex_digit (Z.land (Z.shiftr x (4 * i)) 15)) <$> [7; 6; 5; 4; 3; 2; 1; 0]).

(** [hashlib.sha1(m).hexdigest()] *)
Definition hexdigest (m : list Z) : string :=
  let '(h0, h1, h2, h3, h4) := digest m in
  hex32 h0 +:+ hex32 h1 +:+ hex32 h2 +:+ hex32 h3 +:+ hex32 h4.

End Sha1.

(** [hash_id(url)] *)
Definition hash_id (url : string) : string :=
  Sha1.hexdigest (Sha1.encode url).

(** ** URLs ([urllib.parse.urlparse])

    The split of a URL into its five parts that [urlparse] performs: the
    scheme up to the first colon when it is a letter followed by scheme
    characters, the network location after a double slash up to the next
    slash, question mark or hash, then fragment and query.  Not modelled: the
    removal of control characters and the [;params] part (it is left in
    [path]).  [urlparse] raises [ValueError] for a bracket without its
    partner in the network location ([unbalanced]); what later versions of
    the library check beyond that is an answer of the library (the field
    [rejects] of [Web]). *)

Module Url.

Record t := mk {
  scheme : string;
  netloc : string;
  path : string;
  query : string;
  fragment : string
}.

Definition is_alpha (c : ascii) : bool :=
  let n := N_of_ascii c in
  (((65 <=? n) && (n <=? 90)) || ((97 <=? n) && (n <=? 122)))%N.

Definition is_scheme_char (c : ascii) : bool :=
  let n := N_of_ascii c in
  (is_alpha c || ((48 <=? n) && (n <=? 57)) || (n =? 43) || (n =? 45) || (n =? 46))%N.

Definition is_netloc_end (c : ascii) : bool :=
  let n := N_of_ascii c in
  ((n =? 47) || (n =? 63) || (n =? 35))%N.

Definition starts_alpha (s : string) : bool :=
  match s with
  | String c _ => is_alpha c
  | EmptyString => false
  end.

(** [(scheme, rest)] *)
Definition split_scheme (url : string) : string * string :=
  match Str.find_char ":" url with
  | Some (S i) =>
      if starts_alpha url && Str.forallb is_scheme_char (Str.take (S i) url)
      then (Str.lower (Str.take (S i) url), Str.drop (S (S i)) url)
      else ("", url)
  | _ => ("", url)
  end.

(** [(netloc, rest)] *)
Definition split_netloc (url : string) : string * string :=
  if Str.startswith "//" url then
    let r := Str.drop 2 url in
    match Str.find_if is_netloc_end r with
    | Some i => (Str.take i r, Str.drop i r)
    | None => (r, "")
    end
  else ("", url).

(** [s.split(c, 1)] when [c] occurs in [s]. *)
Definition split_once (c : ascii) (s : string) : string * string :=
  match Str.find_char c s with
  | Some i => (Str.take i s, Str.drop (S i) s)
  | None => (s, "")
  end.

Definition urlparse (url : string) : t :=
  let '(sch, r1) := split_scheme url in
  let '(loc, r2) := split_netloc r1 in
  let '(r3, frag) := split_once "#" r2 in
  let '(pth, qry) := split_once "?" r3 in
  mk sch loc pth qry frag.

Definition has_char (c : ascii) (s : string) : bool :=
  match Str.find_char c s with
  | Some _ => true
  | None => false
  end.

(** The test before "Invalid IPv6 URL": the network location has an opening
    bracket and no closing one, or a closing one and no opening one. *)
Definition unbalanced (url : string) : bool :=
  let loc := netloc (urlparse url) in
  (has_char "[" loc && negb (has_char "]" loc))
  || (has_char "]" loc && negb (has_char "[" loc)).

End Url.

(** ** Data model *)

(** A candidate item, the dict with keys [url], [title], [summary] and
    [published_ts] ([None] is Python's [None]). *)
Module Item.
Record t := mk {
  url : string;
  title : string;
  summary : string;
  published_ts : option Z
}.
End Item.

(** An accepted article, the dict [filter_and_collect] appends. *)
Module Article.
Record t := mk {
  title : string;
  url : string;
  summary : string;
  published_ts : Z;
  source : string
}.
End Article.

(** A feed entry as [feedparser] gives it; a key the entry lacks is [None].
    [published_parsed] holds [time.mktime] of the parsed date, a date that
    [time.mktime] can convert. *)
Module Entry.
Record t := mk {
  link : option string;
  title : option string;
  summary : option string;
  published_parsed : option Z
}.
End Entry.

(** What [try_html] reads off the parsed page. *)
Module Page.
Record t := mk {
  (** [content] of the first [meta property="og:title"] *)
  og_title : option string;
  (** [soup.title.string] *)
  title_string : option string;
  (** [content] of the first [meta property="og:description"] *)
  og_description : option string;
  (** [content] of the first [meta name="description"] *)
  meta_description : option string;
  (** [(a["href"], a.get_text(" ", strip=True))] of each [a] element that
      has an [href], in document order *)
  anchors : list (string * string)
}.
End Page.

(** The answers of the network and of the parsing libraries.  A request
    repeated for the same URL is answered alike. *)
Record Web := {
  (** [feedparser.parse(url).entries]; [None] when parsing raises *)
  feed : string -> option (list Entry.t);
  (** the page behind [url]; [None] when [requests.get] raises, the status
      is an error or parsing raises *)
  page : string -> option Page.t;
  (** [BeautifulSoup(s, "html.parser").get_text(" ", strip=True)] *)
  get_text : string -> string;
  (** [urlparse(s)] raises [ValueError] for a reason other than an
      unbalanced bracket: the checks of a bracketed host that the version of
      the library in use makes *)
  rejects : string -> bool
}.

(** [urlparse(s)] raises [ValueError]. *)
Definition parse_fails (W : Web) (s : string) : bool :=
  Url.unbalanced s || rejects W s.

(** An element of [sources] in the configuration. *)
Record Source := {
  name : option string;
  urls : option (list string)
}.

(** The configuration document; a key the document lacks is [None]. *)
Record Config := {
  sources : option (list Source);
  competitors : option (list string);
  industries : option (list string);
  legal_keywords : option (list string)
}.

(** ** Source fetcher *)

Definition is_probable_rss (W : Web) (url : string) : bool :=
  match feed W url with
  | Some (_ :: _) => true
  | _ => false
  end.

Definition entry_item (W : Web) (e : Entry.t) : Item.t :=
  {| Item.url := get_or (Entry.link e) "";
     Item.title := get_or (Entry.title e) "";
     Item.summary := get_text W (get_or (Entry.summary e) "");
     Item.published_ts := Entry.published_parsed e |}.

Definition try_feed (W : Web) (url : string) : list Item.t :=
  match feed W url with
  | Some entries => entry_item W <$> take 50 entries
  | None => []
  end.

Definition page_title (url : string) (pg : Page.t) : string :=
  if truthy (Page.og_title pg) then default "" (Page.og_title pg)
  else if truthy (Page.title_string pg) then Str.strip (default "" (Page.title_string pg))
  else url.

Definition page_desc (pg : Page.t) : string :=
  if truthy (Page.og_description pg) then default "" (Page.og_description pg)
  else if truthy (Page.meta_description pg) then Str.strip (default "" (Page.meta_description pg))
  else "".

Definition article_segments : list string :=
  ["/news"; "/article"; "/stories"; "/202"; "/blog"].

(** [any(seg in href for seg in [...])] *)
Definition article_like (href : string) : bool :=
  existsb (fun seg => Str.contains seg href) article_segments.

(** The [href] after the rewriting of a link that starts with a slash. *)
Definition resolve (url href : string) : string :=
  if Str.startswith "/" href
  then Url.scheme (Url.urlparse url) +:+ "://" +:+ Url.netloc (Url.urlparse url) +:+ href
  else href.

(** The loop over the anchors of the page: [None] when [urlparse] raises,
    on the URL of the page or on a link, which ends the loop. *)
Fixpoint collect_links (W : Web) (url : string) (anchors : list (string * string))
    : option (list Item.t) :=
  match anchors with
  | [] => Some []
  | (href, text) :: rest =>
      if Str.is_empty text then collect_links W url rest
      else
        let href := resolve url href in
        if parse_fails W url || parse_fails W href then None
        else if negb (String.eqb (Url.netloc (Url.urlparse href)) (Url.netloc (Url.urlparse url)))
        then collect_links W url rest
        else if article_like href
        then cons {| Item.url := href; Item.title := Str.take 200 text;
                     Item.summary := ""; Item.published_ts := None |}
               <$> collect_links W url rest
        else collect_links W url rest
  end.

Definition page_item (url : string) (pg : Page.t) : Item.t :=
  {| Item.url := url; Item.title := Str.take 200 (page_title url pg);
     Item.summary := Str.take 500 (page_desc pg); Item.published_ts := None |}.

Definition try_html (W : Web) (url : string) : list Item.t :=
  match page W url with
  | Some pg =>
      match collect_links W url (Page.anchors pg) with
      | Some links =>
          let items := take 50 links in
          match items with
          | [] => [page_item url pg]
          | _ => items
          end
      | None => []
      end
  | None => []
  end.

(** The first loop of [fetch_source_items]. *)
Fixpoint fetch_urls (W : Web) (us : list string) : list Item.t :=
  match us with
  | [] => []
  | u :: rest =>
      (if is_probable_rss W u then try_feed W u else try_html W u)
      ++ fetch_urls W rest
  end.

(** The second loop: [seen_urls] is the set built so far. *)
Fixpoint dedup_by_url (seen_urls : gset string) (items : list Item.t) : list Item.t :=
  match items with
  | [] => []
  | it :: rest =>
      if decide (Item.url it ∈ seen_urls) then dedup_by_url seen_urls rest
      else it :: dedup_by_url ({[Item.url it]} ∪ seen_urls) rest
  end.

Definition fetch_source_items (W : Web) (source : Source) : list Item.t :=
  dedup_by_url ∅ (fetch_urls W (default [] (urls source))).

(** ** Relevance filter *)

Fixpoint contains_any_loop (t : string) (keywords : list string) : bool :=
  match keywords with
  | [] => false
  | k :: rest => if Str.contains (Str.lower k) t then true else contains_any_loop t rest
  end.

Definition contains_any (text : string) (keywords : list string) : bool :=
  contains_any_loop (Str.lower text) keywords.

(** [f"{title} {summary}"] *)
Definition search_text (title summary : string) : string :=
  title +:+ " " +:+ summary.

Definition legal_filter (title summary : string) (cfg : Config) : bool :=
  contains_any (search_text title summary) (default [] (legal_keywords cfg)).

Definition domain_from_url (W : Web) (u : string) : string :=
  if parse_fails W u then "" else Str.remove_www (Url.netloc (Url.urlparse u)).

(** ** State and exceptions

    The filter reads and updates the ledger [seen] and reads the clock; an
    exception leaves the state as it was when it was raised. *)

Inductive Exn :=
| KeyError (key : string)           (* [cfg[key]] on a missing key *)
| RuntimeError (status : Z)         (* raised by [post_to_slack] *)
| RequestError                      (* [requests.post] itself raises *)
| ConfigError.                      (* [load_config] raises *)

Record State := {
  seen : gmap string Z;
  ticks : nat
}.

Inductive Outcome (A : Type) :=
| Return (a : A)
| Raise (e : Exn).
Arguments Return {A} a.
Arguments Raise {A} e.

Definition M (A : Type) : Type := State -> Outcome A * State.

#[global] Instance M_ret : MRet M := fun A a st => (Return a, st).

#[global] Instance M_bind : MBind M := fun A B f m st =>
  match m st with
  | (Return a, st') => f a st'
  | (Raise e, st') => (Raise e, st')
  end.

Definition raise {A} (e : Exn) : M A := fun st => (Raise e, st).

(** [uid in seen] *)
Definition in_seen (uid : string) : M bool :=
  fun st => (Return (bool_decide (is_Some (seen st !! uid))), st).

(** [seen[uid] = now] *)
Definition set_seen (uid : string) (now : Z) : M unit :=
  fun st => (Return tt, {| seen := <[uid := now]> (seen st); ticks := ticks st |}).

(** [time.time()]: the next reading of the clock. *)
Definition time_time (clock : nat -> Z) : M Z :=
  fun st => (Return (clock (ticks st)), {| seen := seen st; ticks := S (ticks st) |}).

(** [cfg[key]] *)
Definition subscript {A} (key : string) (o : option A) : M A :=
  match o with
  | Some v => mret v
  | None => raise (KeyError key)
  end.

(** [it.get("published_ts") or time.time()]: a timestamp that is [None] or
    zero is falsy, and the clock is read only then. *)
Definition published_or_now (clock : nat -> Z) (it : Item.t) : M Z :=
  match Item.published_ts it with
  | Some p => if p =? 0 then time_time clock else mret p
  | None => time_time clock
  end.

(** The body of the inner loop of [filter_and_collect]: [None] where the
    source says [continue], the article appended otherwise. *)
Definition filter_item (W : Web) (clock : nat -> Z) (cfg : Config) (since_ts : Z)
    (src : Source) (it : Item.t) : M (option Article.t) :=
  let uid := hash_id (Item.url it) in
  known ← in_seen uid;
  if (known : bool) then mret None else
  published ← published_or_now clock it;
  if published <? since_ts then mret None else
  let text := search_text (Item.title it) (Item.summary it) in
  cs ← subscript "competitors" (competitors cfg);
  if negb (contains_any text cs) then mret None else
  ins ← subscript "industries" (industries cfg);
  if negb (contains_any text ins) then mret None else
  if negb (legal_filter (Item.title it) (Item.summary it) cfg) then mret None else
  let art :=
    {| Article.title := Str.or_else (Item.title it) "(untitled)";
       Article.url := Item.url it;
       Article.summary := Item.summary it;
       Article.published_ts := published;
       Article.source := get_or (name src) (domain_from_url W (Item.url it)) |} in
  now ← time_time clock;
  set_seen uid now;;
  mret (Some art).

(** The inner loop, over the items of one source. *)
Fixpoint filter_items (W : Web) (clock : nat -> Z) (cfg : Config) (since_ts : Z)
    (src : Source) (items : list Item.t) (results : list Article.t)
    : M (list Article.t) :=
  match items with
  | [] => mret results
  | it :: rest =>
      o ← filter_item W clock cfg since_ts src it;
      filter_items W clock cfg since_ts src rest
        (match o with Some art => results ++ [art] | None => results end)
  end.

(** The outer loop, over the sources. *)
Fixpoint filter_sources (W : Web) (clock : nat -> Z) (cfg : Config) (since_ts : Z)
    (all_sources : list Source) (results : list Article.t) : M (list Article.t) :=
  match all_sources with
  | [] => mret results
  | src :: rest =>
      results' ← filter_items W clock cfg since_ts src (fetch_source_items W src) results;
      filter_sources W clock cfg since_ts rest results'
  end.

Definition filter_and_collect (W : Web) (clock : nat -> Z)
    (all_sources : list Source) (cfg : Config) (since_ts : Z) : M (list Article.t) :=
  filter_sources W clock cfg since_ts all_sources [].

(** ** Notification payload and delivery *)

Inductive Block :=
| NoResults                      (* the "No new relevant articles" section *)
| Header
| Context (compiled : Z)         (* "Compiled" and the time of rendering *)
| Divider
| ArticleSection (url title source : string) (date : option Z) (summary : string).

(** [sorted(found, key=published_ts or 0, reverse=True)]: descending and
    stable, an article goes before the first one whose key is not larger. *)
Fixpoint insert_desc (a : Article.t) (l : list Article.t) : list Article.t :=
  match l with
  | [] => [a]
  | b :: rest =>
      if Article.published_ts a <? Article.published_ts b
      then b :: insert_desc a rest
      else a :: l
  end.

Definition sorted_desc (found : list Article.t) : list Article.t :=
  foldr insert_desc [] found.

Definition article_blocks (art : Article.t) : list Block :=
  let ts := if Article.published_ts art =? 0 then None else Some (Article.published_ts art) in
  let title := Str.or_else (Str.strip (Article.title art)) "(untitled)" in
  let summary := Str.strip (Article.summary art) in
  let summary :=
    if (300 <? String.length summary)%nat then Str.take 300 summary +:+ "…" else summary in
  [ArticleSection (Article.url art) title (Article.source art) ts summary; Divider].

Definition build_slack_blocks (clock : nat -> Z) (found : list Article.t) : M (list Block) :=
  match found with
  | [] => mret [NoResults]
  | _ =>
      compiled ← time_time clock;
      mret (Header :: Context compiled :: Divider :: (sorted_desc found ≫= article_blocks))
  end.

(** The ledger file at the start of a run. *)
Inductive SeenFile :=
| Missing
| Malformed
| Ledger (m : gmap string Z).

Definition load_seen (f : SeenFile) : gmap string Z :=
  match f with
  | Ledger m => m
  | _ => ∅
  end.

Definition DAY : Z := 86400.

(** The time zone [tz.gettz(DEFAULT_TZ)], by its two answers; offsets are in
    seconds east of UTC, and a wall-clock time is given as the seconds from
    1970-01-01T00:00:00 on the wall clock. *)
Record Zone := {
  (** the offset in force at a timestamp *)
  utcoffset_at : Z -> Z;
  (** the offset the zone gives to a wall-clock time, for [fold = 0] *)
  utcoffset_of_wall : Z -> Z
}.

(** [(now - dt.timedelta(days=8)).timestamp()] for the aware [now] of the
    timestamp [now_ts]: the subtraction goes eight days back on the wall
    clock of the zone, and the result is turned into a timestamp with the
    offset the zone gives to that wall-clock time. *)
Definition since_of (z : Zone) (now_ts : Z) : Z :=
  let wall := now_ts + utcoffset_at z now_ts - 8 * DAY in
  wall - utcoffset_of_wall z wall.

(** A zone with one offset all year. *)
Definition fixed_zone (offset : Z) : Zone :=
  {| utcoffset_at := fun _ => offset; utcoffset_of_wall := fun _ => offset |}.

(** America/Toronto in 2024: daylight time from 2024-03-10T07:00Z to
    2024-11-03T06:00Z, that is from 02:00 to 02:00 on the wall clock. *)
Definition toronto_2024 : Zone :=
  {| utcoffset_at := fun ts =>
       if (1710054000 <=? ts) && (ts <? 1730613600) then -14400 else -18000;
     utcoffset_of_wall := fun wall =>
       if (1710036000 <=? wall) && (wall <? 1730599200) then -14400 else -18000 |}.

(** Everything outside the program that a run of [main] depends on. *)
Record World := {
  web : Web;
  clock : nat -> Z;
  zone : Zone;
  (** the parsed [config.yaml]; [None] when [load_config] raises *)
  config_file : option Config;
  seen_file : SeenFile;
  (** [os.environ.get("SLACK_WEBHOOK_URL", "")] *)
  webhook_env : string;
  (** the status code of the webhook's answer; [None] when the request
      itself raises *)
  slack : string -> list Block -> option Z
}.

(** What a run does to the outside, in order. *)
Inductive Event :=
| SaveSeen (m : gmap string Z)                   (* [save_seen] wrote [m] *)
| Post (webhook : string) (blocks : list Block)  (* [requests.post] *)
| Print (blocks : list Block).                   (* the dry-run output *)

Definition post_to_slack (w : World) (webhook_url : string) (blocks : list Block)
    : Outcome unit :=
  match slack w webhook_url blocks with
  | None => Raise RequestError
  | Some status_code =>
      if 300 <=? status_code then Raise (RuntimeError status_code) else Return tt
  end.

(** [main], up to the call of [save_seen]: the loaded ledger is the state
    the filter runs in. *)
Definition collect (w : World) (cfg : Config) : M (list Article.t) :=
  now ← time_time (clock w);
  let since_ts := since_of (zone w) now in
  filter_and_collect (web w) (clock w) (default [] (sources cfg)) cfg since_ts.

Definition main (w : World) : Outcome unit * list Event :=
  match config_file w with
  | None => (Raise ConfigError, [])
  | Some cfg =>
      match collect w cfg {| seen := load_seen (seen_file w); ticks := O |} with
      | (Raise e, _) => (Raise e, [])
      | (Return found, st) =>
          let saved := SaveSeen (seen st) in
          match build_slack_blocks (clock w) found st with
          | (Raise e, _) => (Raise e, [saved])
          | (Return blocks, _) =>
              let webhook := Str.strip (webhook_env w) in
              if Str.is_empty webhook then (Return tt, [saved; Print blocks])
              else (post_to_slack w webhook blocks, [saved; Post webhook blocks])
          end
      end
  end.

(** ** Utilities: [slugify] *)

(** A character of the class [[a-z0-9]]. *)
Definition is_slug_char (c : ascii) : bool :=
  let n := N_of_ascii c in
  (((97 <=? n) && (n <=? 122)) || ((48 <=? n) && (n <=? 57)))%N.

(** [re.sub(r'[^a-z0-9]+', '-', s)]: every maximal run of characters
    outside the class becomes one dash; [in_run] tells that the character
    before belongs to a run whose dash is already written. *)
Fixpoint sub_runs (in_run : bool) (s : string) : string :=
  match s with
  | EmptyString => EmptyString
  | String c r =>
      if is_slug_char c then String c (sub_runs false r)
      else if in_run then sub_runs true r
      else String "-" (sub_runs true r)
  end.

Fixpoint lstrip_char (d : ascii) (s : string) : string :=
  match s with
  | EmptyString => EmptyString
  | String c r => if ascii_dec c d then lstrip_char d r else s
  end.

Fixpoint rstrip_char (d : ascii) (s : string) : string :=
  match s with
  | EmptyString => EmptyString
  | String c r =>
      match rstrip_char d r with
      | EmptyString => if ascii_dec c d then EmptyString else String c EmptyString
      | r' => String c r'
      end
  end.

(** [s.strip(d)] for a single character [d]. *)
Definition strip_char (d : ascii) (s : string) : string :=
  rstrip_char d (lstrip_char d s).

Definition slugify (s : string) : string :=
  strip_char "-" (sub_runs false (Str.lower s)).

(** * Vocabulary of the properties *)

(** [k] occurs in [text] when case is ignored. *)
Definition occurs_in (k text : string) : Prop :=
  exists pre post, Str.lower text = pre +:+ Str.lower k +:+ post.

(** At least one keyword of the list occurs in the text. *)
Definition mentions (text : string) (keywords : list string) : Prop :=
  exists k, k ∈ keywords /\ occurs_in k text.

(** The article built from an accepted item. *)
Definition article_of (W : Web) (src : Source) (it : Item.t) (published : Z)
    : Article.t :=
  {| Article.title := Str.or_else (Item.title it) "(untitled)";
     Article.url := Item.url it;
     Article.summary := Item.summary it;
     Article.published_ts := published;
     Article.source := get_or (name src) (domain_from_url W (Item.url it)) |}.

(** The timestamp line 180 computes in state [st]. *)
Definition effective_ts (clock : nat -> Z) (it : Item.t) (st : State) : Z :=
  match Item.published_ts it with
  | Some p => if p =? 0 then clock (ticks st) else p
  | None => clock (ticks st)
  end.

(** The three keyword conditions of lines 185 to 190. *)
Definition keywords_match (cfg : Config) (it : Item.t) : Prop :=
  let text := search_text (Item.title it) (Item.summary it) in
  (exists cs, competitors cfg = Some cs /\ mentions text cs) /\
  (exists ins, industries cfg = Some ins /\ mentions text ins) /\
  (exists ls, legal_keywords cfg = Some ls /\ mentions text ls).

Ltac run_monad :=
  unfold mbind, M_bind, mret, M_ret, raise, in_seen, set_seen, time_time, subscript in *;
  simpl in *.

(** [art] was appended when [it], an item of [src], was evaluated in
    state [sti]. *)
Definition accepted_at (W : Web) (clock : nat -> Z) (cfg : Config) (since_ts : Z)
    (src : Source) (it : Item.t) (sti : State) (art : Article.t) : Prop :=
  exists sti', filter_item W clock cfg since_ts src it sti = (Return (Some art), sti').

(** The effective timestamp as the specification words it: the published
    time whenever one is present, the clock otherwise. *)
Definition spec_effective_ts (clock : nat -> Z) (it : Item.t) (st : State) : Z :=
  match Item.published_ts it with
  | Some p => p
  | None => clock (ticks st)
  end.

(** The keyword checks of lines 185 to 190 reject the item: every list
    that is looked up is present and one of them has no keyword in the
    text. *)
Definition keyword_reject (cfg : Config) (it : Item.t) : bool :=
  let text := search_text (Item.title it) (Item.summary it) in
  match competitors cfg with
  | None => false
  | Some cs =>
      if contains_any text cs then
        match industries cfg with
        | None => false
        | Some ins =>
            if contains_any text ins
            then negb (legal_filter (Item.title it) (Item.summary it) cfg)
            else true
        end
      else true
  end.

(** An item that a run with cut-off [since_ts] and ledger [m] is done with:
    its identifier is in the ledger, or it is dated before the cut-off, or
    its text fails the keyword checks. *)
Definition settled (cfg : Config) (since_ts : Z) (m : gmap string Z) (it : Item.t) : Prop :=
  is_Some (m !! hash_id (Item.url it)) \/
  (exists p, Item.published_ts it = Some p /\ p <> 0 /\ p < since_ts) \/
  keyword_reject cfg it = true.

(** ** A worked scenario

    One feed with a dated entry that matches all three keyword lists, and
    the same entry dated at the epoch. *)

Module Scenario.

Definition feed_url : string := "https://regnews.example/feed".

Definition entry : Entry.t :=
  {| Entry.link := Some "https://regnews.example/2024/regco-probe";
     Entry.title := Some "RegCo faces new Fintech compliance probe under Banking Act";
     Entry.summary := Some "Regulators open a review.";
     Entry.published_parsed := Some 1700000000 |}.

Definition W : Web :=
  {| feed := fun u => if String.eqb u feed_url then Some [entry] else Some [];
     page := fun _ => None;
     get_text := fun s => s;
     rejects := fun _ => false |}.

Definition readings (k : nat) : Z := 1700100000 + Z.of_nat k.

Definition src : Source :=
  {| name := Some "RegNews"; urls := Some [feed_url] |}.

Definition cfg : Config :=
  {| sources := Some [src];
     competitors := Some ["RegCo"];
     industries := Some ["Fintech"];
     legal_keywords := Some ["compliance"; "Act"] |}.

Definition since_ts : Z := 1700100000 - 8 * DAY.

Definition st0 : State := {| seen := ∅; ticks := O |}.

Definition item : Item.t := entry_item W entry.

Definition uid : string := "e79a25d7e4f3a7106ff8f5faecfb241c792d6e20".

(** The state after the item has been accepted at the first reading of
    the clock. *)
Definition st1 : State :=
  {| seen := {[ uid := 1700100000 ]}; ticks := 1%nat |}.

(** The entry dated 1970-01-01T00:00:00: [published_ts] is [0]. *)
Definition epoch_item : Item.t :=
  {| Item.url := Item.url item; Item.title := Item.title item;
     Item.summary := Item.summary item; Item.published_ts := Some 0 |}.

Definition undated_item : Item.t :=
  {| Item.url := Item.url item; Item.title := Item.title item;
     Item.summary := Item.summary item; Item.published_ts := None |}.

(** The state after [epoch_item] has been accepted: the clock was read
    twice. *)
Definition st2 : State :=
  {| seen := {[ uid := 1700100001 ]}; ticks := 2%nat |}.

(** A run of [main] without a webhook, on no ledger file. *)
Definition world : World :=
  {| web := W; clock := readings; zone := fixed_zone (-18000);
     config_file := Some cfg; seen_file := Missing;
     webhook_env := ""; slack := fun _ _ => Some 200 |}.


Definition cfg_no_competitors : Config :=
  {| sources := Some [src]; competitors := None;
     industries := Some ["Fintech"]; legal_keywords := Some ["compliance"; "Act"] |}.

Definition world_with (c : Config) : World :=
  {| web := W; clock := readings; zone := fixed_zone (-18000);
     config_file := Some c; seen_file := Missing;
     webhook_env := ""; slack := fun _ _ => Some 200 |}.

(** A ledger loaded with one identifier from an earlier run, and the
    state after the item has been accepted on top of it. *)
Definition st_old : State :=
  {| seen := {[ "da39a3ee5e6b4b0d3255bfef95601890afd80709" := 1690000000 ]};
     ticks := O |}.

Definition st_old1 : State :=
  {| seen := <[ uid := 1700100000 ]> (seen st_old); ticks := 1%nat |}.

End Scenario.

(** [out] keeps, of the items of [raw], the first one of every URL: no two
    of its items share a URL, each is an item of [raw], and an item of
    [raw] that no earlier item shares its URL with is in it. *)
Definition keeps_first (raw out : list Item.t) : Prop :=
  NoDup (Item.url <$> out) /\
  (forall y, y ∈ out -> y ∈ raw) /\
  (forall l1 x l2, raw = l1 ++ x :: l2 -> Item.url x ∉ Item.url <$> l1 -> x ∈ out).

(** The articles collected so far have pairwise different URLs, all of
    them in the ledger. *)
Definition distinct_in (results : list Article.t) (st : State) : Prop :=
  NoDup (Article.url <$> results) /\
  forall art, art ∈ results -> is_Some (seen st !! hash_id (Article.url art)).

(** ** Three feeds that carry the same link

    The entry of the first feed matches no keyword list; the entries of the
    second and third match all three and differ in their titles. *)

Module SameLink.

Definition link : string := "https://regnews.example/2024/regco-probe".

Definition entry_a : Entry.t :=
  {| Entry.link := Some link;
     Entry.title := Some "Quarterly results published";
     Entry.summary := None;
     Entry.published_parsed := Some 1700000000 |}.

Definition entry_b : Entry.t :=
  {| Entry.link := Some link;
     Entry.title := Some "RegCo faces new Fintech compliance probe";
     Entry.summary := None;
     Entry.published_parsed := Some 1700000000 |}.

Definition entry_c : Entry.t :=
  {| Entry.link := Some link;
     Entry.title := Some "Fintech regulator fines RegCo under Banking Act";
     Entry.summary := None;
     Entry.published_parsed := Some 1700000000 |}.

Definition W : Web :=
  {| feed := fun u =>
       if String.eqb u "https://a.example/feed" then Some [entry_a]
       else if String.eqb u "https://b.example/feed" then Some [entry_b]
       else if String.eqb u "https://c.example/feed" then Some [entry_c]
       else Some [];
     page := fun _ => None;
     get_text := fun s => s;
     rejects := fun _ => false |}.

Definition src_a : Source := {| name := Some "A"; urls := Some ["https://a.example/feed"] |}.
Definition src_b : Source := {| name := Some "B"; urls := Some ["https://b.example/feed"] |}.
Definition src_c : Source := {| name := Some "C"; urls := Some ["https://c.example/feed"] |}.

Definition item_a : Item.t := entry_item W entry_a.
Definition item_b : Item.t := entry_item W entry_b.
Definition item_c : Item.t := entry_item W entry_c.

(** The ledger after the run over the three sources: the link was recorded
    when the item of the second source was accepted. *)
Definition st1 : State :=
  {| seen := {[ "e79a25d7e4f3a7106ff8f5faecfb241c792d6e20" := 1700100000 ]};
     ticks := 1%nat |}.

End SameLink.

(** What [try_html] keeps of an anchor: the item of the anchor [(href,
    text)] of the page at [url]. *)
Definition kept_link (url : string) (anchors : list (string * string)) (it : Item.t) : Prop :=
  exists href text,
    (href, text) ∈ anchors /\ text <> "" /\
    it = {| Item.url := resolve url href; Item.title := Str.take 200 text;
            Item.summary := ""; Item.published_ts := None |} /\
    Url.netloc (Url.urlparse (resolve url href)) = Url.netloc (Url.urlparse url) /\
    exists seg, seg ∈ article_segments /\ Str.contains seg (resolve url href) = true.

(** [urlparse] raises on none of the links the loop of [try_html] looks at:
    for every anchor with text, neither on the URL of the page nor on the
    resolved link. *)
Definition links_parse (W : Web) (url : string) (anchors : list (string * string)) : bool :=
  forallb (fun a => Str.is_empty (snd a)
                    || negb (parse_fails W url || parse_fails W (resolve url (fst a))))
    anchors.

(** ** Two pages *)

Module Pages.

Definition url : string := "https://example.com/press".

(** A page none of whose anchors is kept: a link to another host, a link
    that is not article-like, an article-like link without text. *)
Definition bare : Page.t :=
  {| Page.og_title := None;
     Page.title_string := Some "  Press room  ";
     Page.og_description := Some "All announcements";
     Page.meta_description := None;
     Page.anchors := [("https://other.example/news/1", "Elsewhere");
                      ("/contact", "Contact");
                      ("/news/archive", "")] |}.

(** A page with a link whose query, not its path, has an article segment,
    a link relative to the page, a link to another host and an article
    link. *)
Definition linked : Page.t :=
  {| Page.og_title := Some "Press";
     Page.title_string := None;
     Page.og_description := None;
     Page.meta_description := None;
     Page.anchors := [("/about?from=/news", "About us");
                      ("news/today.html", "Today");
                      ("https://other.example/news/1", "Elsewhere");
                      ("/news/2024/launch", "Launch")] |}.

(** A page whose one anchor has a link with an opening bracket and no
    closing one. *)
Definition broken : Page.t :=
  {| Page.og_title := Some "Press";
     Page.title_string := None;
     Page.og_description := None;
     Page.meta_description := None;
     Page.anchors := [("http://[", "x")] |}.

Definition W (pg : Page.t) : Web :=
  {| feed := fun _ => Some [];
     page := fun u => if String.eqb u url then Some pg else None;
     get_text := fun s => s;
     rejects := fun _ => false |}.

End Pages.

(** The number of readings of the clock that line 180 takes for an item:
    none when the item carries a published time that is not zero, one
    otherwise. *)
Definition readings_for (it : Item.t) : nat :=
  match Item.published_ts it with
  | Some p => if p =? 0 then 1%nat else 0%nat
  | None => 1%nat
  end.

(** The identifiers of a list of articles. *)
Definition uids (arts : list Article.t) : list string :=
  (fun art => hash_id (Article.url art)) <$> arts.

(** The URLs of the article sections of a payload, in order. *)
Definition section_urls (blocks : list Block) : list string :=
  omap (fun b => match b with
                 | ArticleSection url _ _ _ _ => Some url
                 | _ => None
                 end) blocks.

(** [a] is not older than [b]. *)
Definition not_older (a b : Article.t) : Prop :=
  Article.published_ts b <= Article.published_ts a.

(** The payload of the scenario, rendered at the third reading of the
    clock. *)
Definition scenario_blocks : list Block :=
  [Header; Context 1700100002; Divider;
   ArticleSection "https://regnews.example/2024/regco-probe"
     "RegCo faces new Fintech compliance probe under Banking Act"
     "RegNews" (Some 1700000000) "Regulators open a review.";
   Divider].

(** A configuration without sources and without keyword lists. *)
Definition cfg_empty : Config :=
  {| sources := None; competitors := None; industries := None; legal_keywords := None |}.

(** A run with a webhook that answers 500, on a malformed ledger file. *)
Definition world_failing_hook : World :=
  {| web := Scenario.W; clock := Scenario.readings; zone := toronto_2024;
     config_file := Some cfg_empty;
     seen_file := Malformed; webhook_env := " https://hooks.example/T1 ";
     slack := fun _ _ => Some 500 |}.

(** A character of a slug: of the class, or the dash. *)
Definition slug_or_dash (c : ascii) : bool :=
  is_slug_char c || if ascii_dec c "-" then true else false.

(** The characters of [s] are of the class or dashes, and no dash follows a
    dash, nor opens [s] when [after_dash] is set. *)
Fixpoint runs_ok (after_dash : bool) (s : string) : bool :=
  match s with
  | EmptyString => true
  | String c r =>
      if is_slug_char c then runs_ok false r
      else if ascii_dec c "-" then negb after_dash && runs_ok true r
      else false
  end.

(** [s.endswith(d)] for a single character [d]. *)
Fixpoint ends_with_char (d : ascii) (s : string) : bool :=
  match s with
  | EmptyString => false
  | String c EmptyString => if ascii_dec c d then true else false
  | String _ r => ends_with_char d r
  end.

(** A digit of a lower-case hexadecimal numeral. *)
Definition is_lower_hex (c : ascii) : bool :=
  let n := N_of_ascii c in
  (((48 <=? n) && (n <=? 57)) || ((97 <=? n) && (n <=? 102)))%N.

(** ** Two runs across the end of daylight time

    A feed with one entry, dated 2024-10-26T05:20:00Z, that matches the three
    keyword lists of the scenario; a run that starts ten seconds before
    2024-11-03T06:00Z, when Toronto goes back to standard time, and a run
    that starts fifteen seconds later. *)

Module TimeChange.

Definition entry : Entry.t :=
  {| Entry.link := Some "https://regnews.example/2024/regco-probe";
     Entry.title := Some "RegCo faces new Fintech compliance probe under Banking Act";
     Entry.summary := Some "Regulators open a review.";
     Entry.published_parsed := Some 1729920000 |}.

Definition W : Web :=
  {| feed := fun u => if String.eqb u Scenario.feed_url then Some [entry] else Some [];
     page := fun _ => None;
     get_text := fun s => s;
     rejects := fun _ => false |}.

Definition item : Item.t := entry_item W entry.

Definition first_run : World :=
  {| web := W; clock := fun k => 1730613590 + Z.of_nat k; zone := toronto_2024;
     config_file := Some Scenario.cfg; seen_file := Missing;
     webhook_env := ""; slack := fun _ _ => Some 200 |}.

Definition second_run : World :=
  {| web := W; clock := fun k => 1730613605 + Z.of_nat k; zone := toronto_2024;
     config_file := Some Scenario.cfg; seen_file := Missing;
     webhook_env := ""; slack := fun _ _ => Some 200 |}.

End TimeChange.

(** * Properties *)

(** ** The model on known values *)

Example sha1_of_abc :
  hash_id "abc" = "a9993e364706816aba3e25717850c26c9cd0d89d".
Proof. vm_compute. reflexivity. Qed.

Example sha1_of_empty :
  hash_id "" = "da39a3ee5e6b4b0d3255bfef95601890afd80709".
Proof. vm_compute. reflexivity. Qed.

(** A message of 88 bytes, two blocks after padding. *)
Example sha1_of_two_blocks :
  hash_id ("The quick brown fox jumps over the lazy dog, "
           +:+ "The quick brown fox jumps over the lazy dog")
  = "d7e9c124ed4df50011d6e9d877311400cbcf7953".
Proof. vm_compute. reflexivity. Qed.

Example sha1_of_scenario_link :
  hash_id (Item.url Scenario.item) = Scenario.uid.
Proof. vm_compute. reflexivity. Qed.

Example urlparse_all_parts :
  Url.urlparse "HTTP://user@example.com:80/a/b?q=1#frag"
  = Url.mk "http" "user@example.com:80" "/a/b" "q=1" "frag".
Proof. vm_compute. reflexivity. Qed.

Example urlparse_relative :
  Url.urlparse "news/today.html" = Url.mk "" "" "news/today.html" "" "".
Proof. vm_compute. reflexivity. Qed.

Example urlparse_colon_in_path :
  Url.urlparse "/a:b/c" = Url.mk "" "" "/a:b/c" "" "".
Proof. vm_compute. reflexivity. Qed.

Example domain_without_www :
  domain_from_url Scenario.W "https://www.example.com/x" = "example.com".
Proof. vm_compute. reflexivity. Qed.

(** [urlparse] raises on a bracket without its partner, and
    [domain_from_url] then gives the empty string. *)
Example unbalanced_bracket :
  Url.unbalanced "http://[" = true /\ Url.unbalanced "http://[::1]:8080/news" = false /\
  Url.unbalanced "https://example.com/a[1" = false /\
  domain_from_url Scenario.W "http://[" = "".
Proof. repeat split; vm_compute; reflexivity. Qed.

Example strip_both_ends : Str.strip "  Press room  " = "Press room".
Proof. vm_compute. reflexivity. Qed.

Example contains_any_ignores_case :
  contains_any "RegCo faces new Fintech compliance probe" ["banking"; "FINTECH"] = true.
Proof. vm_compute. reflexivity. Qed.

(** The scenario: the entry is accepted, recorded under the digest of its
    link, and a second pass over the same feed accepts nothing. *)
Example scenario_run :
  filter_and_collect Scenario.W Scenario.readings [Scenario.src] Scenario.cfg
    Scenario.since_ts Scenario.st0
  = (Return [Article.mk "RegCo faces new Fintech compliance probe under Banking Act"
               "https://regnews.example/2024/regco-probe" "Regulators open a review."
               1700000000 "RegNews"],
     Scenario.st1).
Proof. vm_compute. reflexivity. Qed.

Example scenario_second_pass :
  filter_and_collect Scenario.W Scenario.readings [Scenario.src] Scenario.cfg
    Scenario.since_ts Scenario.st1
  = (Return [], Scenario.st1).
Proof. vm_compute. reflexivity. Qed.

(** The payload: most recent first, and the no-results section for an empty
    list. *)
Example payload_most_recent_first :
  Article.published_ts <$>
    sorted_desc [Article.mk "a" "u1" "" 10 "s"; Article.mk "b" "u2" "" 30 "s";
                 Article.mk "c" "u3" "" 20 "s"; Article.mk "d" "u4" "" 30 "s"]
  = [30; 30; 20; 10] /\
  Article.title <$>
    sorted_desc [Article.mk "a" "u1" "" 10 "s"; Article.mk "b" "u2" "" 30 "s";
                 Article.mk "c" "u3" "" 20 "s"; Article.mk "d" "u4" "" 30 "s"]
  = ["b"; "d"; "c"; "a"].
Proof. split; vm_compute; reflexivity. Qed.

Example payload_of_nothing :
  fst (build_slack_blocks Scenario.readings [] Scenario.st0) = Return [NoResults].
Proof. reflexivity. Qed.

(** ** Substring search *)

Lemma startswith_spec p s :
  Str.startswith p s = true <-> exists r, s = p +:+ r.
Proof.
  revert s. induction p as [|a p IH]; intros s; simpl.
  - split; [intros _; exists s; reflexivity | reflexivity].
  - destruct s as [|b s].
    + split; [discriminate | intros [r Hr]; discriminate].
    + destruct (ascii_dec a b) as [->|Hab].
      * rewrite IH. split; intros [r Hr]; exists r; [by rewrite Hr | by injection Hr].
      * split; [discriminate | intros [r Hr]; simpl in Hr; injection Hr as Hb _; by destruct Hab].
Qed.

Lemma contains_spec k s :
  Str.contains k s = true <-> exists pre post, s = pre +:+ k +:+ post.
Proof.
  induction s as [|c s IH]; simpl.
  - rewrite startswith_spec. split.
    + intros [r Hr]. exists "", r. exact Hr.
    + intros [pre [post H]]. destruct pre; [by exists post | discriminate].
  - rewrite orb_true_iff, IH, startswith_spec. split.
    + intros [[r Hr] | [pre [post H]]].
      * exists "", r. exact Hr.
      * exists (String c pre), post. simpl. by rewrite H.
    + intros [pre [post H]]. destruct pre as [|c' pre]; simpl in H.
      * left. by exists post.
      * right. exists pre, post. by injection H.
Qed.

Lemma contains_any_spec text keywords :
  contains_any text keywords = true <-> mentions text keywords.
Proof.
  unfold contains_any, mentions, occurs_in.
  induction keywords as [|k ks IH]; simpl.
  - split; [discriminate | intros [k [Hk _]]; inversion Hk].
  - destruct (Str.contains (Str.lower k) (Str.lower text)) eqn:Hc.
    + split; [intros _ | reflexivity].
      exists k. split; [left | by apply contains_spec].
    + rewrite IH. split.
      * intros [k' [Hin Hk']]. exists k'. split; [by right | done].
      * intros [k' [Hin Hk']]. inversion Hin; subst.
        -- apply contains_spec in Hk'. congruence.
        -- by exists k'.
Qed.

(** ** One evaluation of the filter *)

Lemma published_or_now_eq clock it st :
  exists st1, published_or_now clock it st = (Return (effective_ts clock it st), st1)
    /\ seen st1 = seen st /\ (ticks st <= ticks st1)%nat.
Proof.
  unfold published_or_now, effective_ts.
  destruct (Item.published_ts it) as [p|]; [destruct (p =? 0)|]; run_monad;
    eexists; (split; [reflexivity|simpl; split; [reflexivity|lia]]).
Qed.

Lemma legal_filter_true title summary cfg :
  legal_filter title summary cfg = true ->
  exists ls, legal_keywords cfg = Some ls /\ mentions (search_text title summary) ls.
Proof.
  unfold legal_filter. destruct (legal_keywords cfg) as [ls|]; simpl.
  - intros H. exists ls. split; [done | by apply contains_any_spec].
  - discriminate.
Qed.

(** An accepted item: what must have held, and the state it leaves. *)
Lemma filter_item_accept W clock cfg since_ts src it st art st' :
  filter_item W clock cfg since_ts src it st = (Return (Some art), st') ->
  seen st !! hash_id (Item.url it) = None /\
  since_ts <= effective_ts clock it st /\
  keywords_match cfg it /\
  art = article_of W src it (effective_ts clock it st) /\
  exists now, seen st' = <[hash_id (Item.url it) := now]> (seen st).
Proof.
  unfold filter_item. run_monad.
  case_bool_decide as Hk; [discriminate|].
  destruct (published_or_now_eq clock it st) as (st1 & -> & Hs1 & _).
  destruct (effective_ts clock it st <? since_ts) eqn:Hlt; [discriminate|].
  destruct (competitors cfg) as [cs|] eqn:Hcs; simpl; [|discriminate].
  destruct (contains_any _ cs) eqn:Hc1; simpl; [|discriminate].
  destruct (industries cfg) as [ins|] eqn:Hins; simpl; [|discriminate].
  destruct (contains_any _ ins) eqn:Hc2; simpl; [|discriminate].
  destruct (legal_filter _ _ cfg) eqn:Hc3; simpl; [|discriminate].
  intros [= <- <-]. simpl.
  split; [by apply eq_None_not_Some|].
  split; [by apply Z.ltb_ge|].
  split; [|split; [reflexivity | rewrite Hs1; eauto]].
  split; [|split].
  - exists cs. split; [done | by apply contains_any_spec].
  - exists ins. split; [done | by apply contains_any_spec].
  - by apply legal_filter_true.
Qed.

(** A rejected item and a raised exception leave the ledger alone. *)
Lemma filter_item_other W clock cfg since_ts src it st out st' :
  filter_item W clock cfg since_ts src it st = (out, st') ->
  (forall art, out <> Return (Some art)) ->
  seen st' = seen st.
Proof.
  unfold filter_item. run_monad. intros H Hno.
  case_bool_decide as Hk; [by injection H as <- <-|].
  destruct (published_or_now_eq clock it st) as (st1 & Hp & Hs1 & _).
  rewrite Hp in H.
  destruct (effective_ts clock it st <? since_ts); [by injection H as <- <-|].
  destruct (competitors cfg) as [cs|]; simpl in H; [|by injection H as <- <-].
  destruct (contains_any _ cs); simpl in H; [|by injection H as <- <-].
  destruct (industries cfg) as [ins|]; simpl in H; [|by injection H as <- <-].
  destruct (contains_any _ ins); simpl in H; [|by injection H as <- <-].
  destruct (legal_filter _ _ cfg); simpl in H; [|by injection H as <- <-].
  injection H as <- <-. by edestruct Hno.
Qed.

Lemma filter_item_cases W clock cfg since_ts src it st out st' :
  filter_item W clock cfg since_ts src it st = (out, st') ->
  (exists art, out = Return (Some art)) \/ seen st' = seen st.
Proof.
  intros H. destruct out as [[art|]|e].
  - left. by exists art.
  - right. eapply filter_item_other; [exact H | discriminate].
  - right. eapply filter_item_other; [exact H | discriminate].
Qed.

Lemma filter_item_grows W clock cfg since_ts src it st out st' :
  filter_item W clock cfg since_ts src it st = (out, st') ->
  seen st ⊆ seen st'.
Proof.
  intros H. destruct (filter_item_cases _ _ _ _ _ _ _ _ _ H) as [[art ->] | ->]; [|done].
  apply filter_item_accept in H as (Hnone & _ & _ & _ & now & ->).
  by apply insert_subseteq.
Qed.

(** ** The two loops *)

Section Loops.

Variables (W : Web) (clock : nat -> Z) (cfg : Config) (since_ts : Z).

Lemma filter_items_grows src items results st out st' :
  filter_items W clock cfg since_ts src items results st = (out, st') ->
  seen st ⊆ seen st'.
Proof.
  revert results st. induction items as [|it rest IH]; intros results st; simpl.
  - run_monad. by intros [= <- <-].
  - unfold mbind, M_bind at 1.
    destruct (filter_item W clock cfg since_ts src it st) as [[o|e] st1] eqn:Hstep.
    + intros Hrest. apply IH in Hrest. apply filter_item_grows in Hstep.
      by etrans.
    + intros [= <- <-]. by apply filter_item_grows in Hstep.
Qed.

Lemma filter_sources_grows srcs results st out st' :
  filter_sources W clock cfg since_ts srcs results st = (out, st') ->
  seen st ⊆ seen st'.
Proof.
  revert results st. induction srcs as [|src rest IH]; intros results st; simpl.
  - run_monad. by intros [= <- <-].
  - unfold mbind, M_bind at 1.
    destruct (filter_items W clock cfg since_ts src _ results st) as [[r1|e] st1] eqn:Hin.
    + intros Hrest. apply IH in Hrest. apply filter_items_grows in Hin.
      by etrans.
    + intros [= <- <-]. by apply filter_items_grows in Hin.
Qed.

Lemma filter_items_accepted src items results st found st' :
  filter_items W clock cfg since_ts src items results st = (Return found, st') ->
  exists acc, found = results ++ acc /\
    Forall (fun art => exists it sti, it ∈ items /\ seen st ⊆ seen sti /\
              accepted_at W clock cfg since_ts src it sti art) acc.
Proof.
  revert results st. induction items as [|it rest IH]; intros results st; simpl.
  - run_monad. intros [= <- <-]. exists []. by rewrite app_nil_r.
  - unfold mbind, M_bind at 1.
    destruct (filter_item W clock cfg since_ts src it st) as [[o|e] st1] eqn:Hstep;
      [|discriminate].
    intros Hrest. apply IH in Hrest as (acc & -> & Hacc).
    assert (Hacc' : Forall (fun art => exists it0 sti,
              it0 ∈ it :: rest /\ seen st ⊆ seen sti /\
              accepted_at W clock cfg since_ts src it0 sti art) acc).
    { eapply Forall_impl; [exact Hacc|]. intros art (it0 & sti & Hin & Hsub & Ha).
      exists it0, sti. split; [by right|]. split; [|done].
      etrans; [|exact Hsub]. by eapply filter_item_grows. }
    destruct o as [art|].
    + exists (art :: acc). split; [by rewrite <- app_assoc|].
      constructor; [|done]. exists it, st. split; [left|]. split; [done | by exists st1].
    + by exists acc.
Qed.

Lemma filter_sources_accepted srcs results st found st' :
  filter_sources W clock cfg since_ts srcs results st = (Return found, st') ->
  exists acc, found = results ++ acc /\
    Forall (fun art => exists src it sti, src ∈ srcs /\
              it ∈ fetch_source_items W src /\ seen st ⊆ seen sti /\
              accepted_at W clock cfg since_ts src it sti art) acc.
Proof.
  revert results st. induction srcs as [|src rest IH]; intros results st; simpl.
  - run_monad. intros [= <- <-]. exists []. by rewrite app_nil_r.
  - unfold mbind, M_bind at 1.
    destruct (filter_items W clock cfg since_ts src _ results st) as [[r1|e] st1] eqn:Hin;
      [|discriminate].
    intros Hrest. apply IH in Hrest as (acc2 & -> & Hacc2).
    pose proof (filter_items_grows _ _ _ _ _ _ Hin) as Hsub1.
    apply filter_items_accepted in Hin as (acc1 & -> & Hacc1).
    exists (acc1 ++ acc2). split; [by rewrite app_assoc|].
    apply Forall_app. split.
    + eapply Forall_impl; [exact Hacc1|]. intros art (it & sti & Hit & Hsub & Ha).
      exists src, it, sti. split; [left | done].
    + eapply Forall_impl; [exact Hacc2|].
      intros art (s & it & sti & Hs & Hit & Hsub & Ha).
      exists s, it, sti. split; [by right|]. split; [done|]. split; [by etrans | done].
Qed.

End Loops.

(** ** The relevance filter *)

(** C1. Every article that [filter_and_collect] returns was appended for an
    item of one of the sources whose search text (title, a space, summary)
    contains, case ignored, at least one keyword of each of the three
    configured lists: competitors and industries and legal keywords. *)
Theorem accepted_articles_match_all_three_lists
    (W : Web) (clock : nat -> Z) (srcs : list Source) (cfg : Config) (since_ts : Z)
    (st : State) (found : list Article.t) (st' : State) :
  filter_and_collect W clock srcs cfg since_ts st = (Return found, st') ->
  forall art, art ∈ found ->
    exists src it sti,
      src ∈ srcs /\ it ∈ fetch_source_items W src /\
      accepted_at W clock cfg since_ts src it sti art /\
      keywords_match cfg it.
Proof.
  intros Hrun art Hart.
  apply filter_sources_accepted in Hrun as (acc & -> & Hacc).
  rewrite Forall_forall in Hacc.
  destruct (Hacc art Hart) as (src & it & sti & Hsrc & Hit & _ & Ha).
  exists src, it, sti. split; [done|]. split; [done|]. split; [done|].
  destruct Ha as [sti' Ha]. by apply filter_item_accept in Ha as (_ & _ & Hk & _).
Qed.

Lemma accepted_articles_match_all_three_lists_witness :
  exists src it sti,
    src ∈ [Scenario.src] /\ it ∈ fetch_source_items Scenario.W src /\
    accepted_at Scenario.W Scenario.readings Scenario.cfg Scenario.since_ts src it sti
      (article_of Scenario.W Scenario.src Scenario.item 1700000000) /\
    keywords_match Scenario.cfg it.
Proof.
  apply (accepted_articles_match_all_three_lists Scenario.W Scenario.readings
           [Scenario.src] Scenario.cfg Scenario.since_ts Scenario.st0
           [article_of Scenario.W Scenario.src Scenario.item 1700000000] Scenario.st1).
  - vm_compute. reflexivity.
  - left.
Defined.

(** C4, as the code has it.  For every item the filter evaluates, the
    effective timestamp is the published time when that is present and not
    zero, and the reading of the clock at evaluation otherwise; an item whose
    effective timestamp is strictly earlier than [since_ts] is rejected and
    the ledger left alone; an accepted article carries the effective
    timestamp, which is not earlier than [since_ts]. *)
Theorem effective_timestamp_not_before_since
    (W : Web) (clock : nat -> Z) (cfg : Config) (since_ts : Z) (src : Source) (it : Item.t)
    (st : State) (out : Outcome (option Article.t)) (st' : State) :
  filter_item W clock cfg since_ts src it st = (out, st') ->
  let e := match Item.published_ts it with
           | Some p => if p =? 0 then clock (ticks st) else p
           | None => clock (ticks st)
           end in
  (exists st1, published_or_now clock it st = (Return e, st1)) /\
  (e < since_ts -> out = Return None /\ seen st' = seen st) /\
  (forall art, out = Return (Some art) ->
     Article.published_ts art = e /\ since_ts <= e).
Proof.
  intros H e.
  destruct (published_or_now_eq clock it st) as (st1 & Hp & _).
  change (effective_ts clock it st) with e in Hp.
  split; [by exists st1|]. split.
  - intros Hlt. destruct out as [[art|]|ex].
    + apply filter_item_accept in H as (_ & Hge & _).
      change (effective_ts clock it st) with e in Hge. lia.
    + split; [done|]. eapply filter_item_other; [exact H | discriminate].
    + exfalso. revert H. unfold filter_item. run_monad.
      case_bool_decide; [discriminate|]. rewrite Hp.
      apply Z.ltb_lt in Hlt. rewrite Hlt. discriminate.
  - intros art ->. apply filter_item_accept in H as (_ & Hge & _ & -> & _).
    split; [reflexivity | exact Hge].
Qed.

Lemma effective_timestamp_not_before_since_witness :
  (exists st1, published_or_now Scenario.readings Scenario.item Scenario.st0
                 = (Return 1700000000, st1)) /\
  (1700000000 < Scenario.since_ts ->
     Return (Some (article_of Scenario.W Scenario.src Scenario.item 1700000000)) = Return None /\
     seen Scenario.st1 = seen Scenario.st0) /\
  (forall art, Return (Some (article_of Scenario.W Scenario.src Scenario.item 1700000000))
                 = Return (Some art) ->
     Article.published_ts art = 1700000000 /\ Scenario.since_ts <= 1700000000).
Proof.
  apply (effective_timestamp_not_before_since Scenario.W Scenario.readings Scenario.cfg
           Scenario.since_ts Scenario.src Scenario.item Scenario.st0
           (Return (Some (article_of Scenario.W Scenario.src Scenario.item 1700000000)))
           Scenario.st1).
  vm_compute. reflexivity.
Defined.

(** C4, as stated, fails for an item dated at the epoch: its published time
    is present and strictly earlier than [since_ts], the effective timestamp
    of the specification is that time, and the filter accepts the item, with
    the reading of the clock as its timestamp. *)
Lemma epoch_dated_item_is_accepted :
  Item.published_ts Scenario.epoch_item = Some 0 /\
  spec_effective_ts Scenario.readings Scenario.epoch_item Scenario.st0 < Scenario.since_ts /\
  filter_item Scenario.W Scenario.readings Scenario.cfg Scenario.since_ts Scenario.src
    Scenario.epoch_item Scenario.st0
  = (Return (Some (article_of Scenario.W Scenario.src Scenario.epoch_item 1700100000)), Scenario.st2).
Proof.
  split; [reflexivity|]. split; [reflexivity|]. vm_compute. reflexivity.
Qed.

(** C10. An item whose [published_ts] is present and zero is evaluated
    exactly as the same item without a timestamp: the effective timestamp is
    the reading of the clock at evaluation, and the article emitted for it
    carries that reading, not the zero. *)
Theorem falsy_timestamp_is_treated_as_absent
    (W : Web) (clock : nat -> Z) (cfg : Config) (since_ts : Z) (src : Source) (it : Item.t)
    (st : State) :
  Item.published_ts it = Some 0 ->
  let undated := {| Item.url := Item.url it; Item.title := Item.title it;
                    Item.summary := Item.summary it; Item.published_ts := None |} in
  published_or_now clock it st
    = (Return (clock (ticks st)), {| seen := seen st; ticks := S (ticks st) |}) /\
  filter_item W clock cfg since_ts src it st
    = filter_item W clock cfg since_ts src undated st /\
  (forall art st', filter_item W clock cfg since_ts src it st = (Return (Some art), st') ->
     Article.published_ts art = clock (ticks st)).
Proof.
  intros Hz undated.
  assert (Hp : published_or_now clock it st = published_or_now clock undated st).
  { unfold published_or_now. rewrite Hz. reflexivity. }
  split; [|split].
  - unfold published_or_now. rewrite Hz. reflexivity.
  - unfold filter_item. run_monad. case_bool_decide; [reflexivity|].
    rewrite Hp. reflexivity.
  - intros art st' H. apply filter_item_accept in H as (_ & _ & _ & -> & _).
    simpl. unfold effective_ts. rewrite Hz. reflexivity.
Qed.

Lemma falsy_timestamp_is_treated_as_absent_witness :
  published_or_now Scenario.readings Scenario.epoch_item Scenario.st0
    = (Return 1700100000, {| seen := ∅; ticks := 1 |}) /\
  filter_item Scenario.W Scenario.readings Scenario.cfg Scenario.since_ts Scenario.src
      Scenario.epoch_item Scenario.st0
    = filter_item Scenario.W Scenario.readings Scenario.cfg Scenario.since_ts Scenario.src
        Scenario.undated_item Scenario.st0 /\
  (forall art st',
     filter_item Scenario.W Scenario.readings Scenario.cfg Scenario.since_ts Scenario.src
       Scenario.epoch_item Scenario.st0 = (Return (Some art), st') ->
     Article.published_ts art = 1700100000).
Proof.
  apply (falsy_timestamp_is_treated_as_absent Scenario.W Scenario.readings Scenario.cfg
           Scenario.since_ts Scenario.src Scenario.epoch_item Scenario.st0).
  reflexivity.
Defined.

(** ** The ledger *)

(** C9. Whatever the outcome of [filter_and_collect], every identifier of
    the ledger it started from is still in the ledger afterwards, with the
    timestamp it had. *)
Theorem ledger_only_grows
    (W : Web) (clock : nat -> Z) (srcs : list Source) (cfg : Config) (since_ts : Z)
    (st : State) (out : Outcome (list Article.t)) (st' : State)
    (uid : string) (ts : Z) :
  filter_and_collect W clock srcs cfg since_ts st = (out, st') ->
  seen st !! uid = Some ts ->
  seen st' !! uid = Some ts.
Proof.
  intros Hrun Hin. apply filter_sources_grows in Hrun.
  by eapply lookup_weaken.
Qed.

Lemma ledger_only_grows_witness :
  seen Scenario.st_old1 !! "da39a3ee5e6b4b0d3255bfef95601890afd80709" = Some 1690000000.
Proof.
  apply (ledger_only_grows Scenario.W Scenario.readings [Scenario.src] Scenario.cfg
           Scenario.since_ts Scenario.st_old
           (Return [article_of Scenario.W Scenario.src Scenario.item 1700000000])
           Scenario.st_old1).
  - vm_compute. reflexivity.
  - vm_compute. reflexivity.
Defined.

(** ** Duplicates *)

Lemma dedup_by_url_fresh seen_urls items y :
  y ∈ dedup_by_url seen_urls items -> y ∈ items /\ Item.url y ∉ seen_urls.
Proof.
  revert seen_urls. induction items as [|it rest IH]; intros seen_urls; simpl.
  - intros H. inversion H.
  - case_decide as Hin.
    + intros H. apply IH in H as [H1 H2]. split; [by right | done].
    + intros H. inversion H as [|? ? ? Hy]; subst.
      * split; [left | done].
      * apply IH in Hy as [H1 H2]. split; [by right|].
        intros Hc. apply H2, elem_of_union. by right.
Qed.

Lemma dedup_by_url_nodup seen_urls items :
  NoDup (Item.url <$> dedup_by_url seen_urls items).
Proof.
  revert seen_urls. induction items as [|it rest IH]; intros seen_urls; simpl.
  - constructor.
  - case_decide as Hin; [apply IH|].
    rewrite fmap_cons. constructor; [|apply IH].
    intros Hdup. apply list_elem_of_fmap in Hdup as (y & Hy & Hin').
    apply dedup_by_url_fresh in Hin' as [_ Hfresh]. apply Hfresh, elem_of_union.
    left. apply elem_of_singleton. congruence.
Qed.

Lemma dedup_by_url_first seen_urls l1 x l2 :
  Item.url x ∉ seen_urls -> Item.url x ∉ Item.url <$> l1 ->
  x ∈ dedup_by_url seen_urls (l1 ++ x :: l2).
Proof.
  revert seen_urls. induction l1 as [|a l1 IH]; intros seen_urls Hs Hl; simpl.
  - case_decide; [done | left].
  - rewrite fmap_cons in Hl. apply not_elem_of_cons in Hl as [Hne Hl].
    case_decide.
    + by apply IH.
    + right. apply IH; [|done]. intros [Hc%elem_of_singleton | Hc]%elem_of_union; done.
Qed.

Lemma fetch_source_items_keeps_first W src :
  keeps_first (fetch_urls W (default [] (urls src))) (fetch_source_items W src).
Proof.
  unfold keeps_first, fetch_source_items. split; [apply dedup_by_url_nodup|]. split.
  - intros y Hy. by apply dedup_by_url_fresh in Hy as [Hy _].
  - intros l1 x l2 -> Hx. apply dedup_by_url_first; [apply not_elem_of_empty | done].
Qed.

(** The ledger check: an item whose identifier is in the ledger is rejected
    and nothing changes. *)
Lemma filter_item_known W clock cfg since_ts src it st :
  is_Some (seen st !! hash_id (Item.url it)) ->
  filter_item W clock cfg since_ts src it st = (Return None, st).
Proof.
  intros Hk. unfold filter_item. run_monad. by rewrite bool_decide_eq_true_2.
Qed.

Section Distinct.

Variables (W : Web) (clock : nat -> Z) (cfg : Config) (since_ts : Z).

Lemma filter_items_distinct src items results st found st' :
  filter_items W clock cfg since_ts src items results st = (Return found, st') ->
  distinct_in results st -> distinct_in found st'.
Proof.
  revert results st. induction items as [|it rest IH]; intros results st; simpl.
  - run_monad. by intros [= <- <-].
  - unfold mbind, M_bind at 1.
    destruct (filter_item W clock cfg since_ts src it st) as [[[art|]|e] st1] eqn:Hstep;
      [| |discriminate]; intros Hrest [Hnd Hall]; apply (IH _ _ Hrest).
    + apply filter_item_accept in Hstep as (Hnone & _ & _ & -> & now & Hst1).
      split.
      * rewrite fmap_app. apply NoDup_app. split; [done|]. split; [|apply NoDup_singleton].
        intros u Hu Hu'. apply list_elem_of_fmap in Hu as (a & -> & Ha).
        apply list_elem_of_singleton in Hu'. simpl in Hu'.
        destruct (Hall a Ha) as [v Hv]. rewrite Hu' in Hv. congruence.
      * intros a Ha. rewrite Hst1. apply elem_of_app in Ha as [Ha|Ha].
        -- destruct (Hall a Ha) as [v Hv].
           destruct (decide (hash_id (Item.url it) = hash_id (Article.url a))) as [He|Hne].
           ++ rewrite He, lookup_insert_eq. eauto.
           ++ rewrite lookup_insert_ne; eauto.
        -- apply list_elem_of_singleton in Ha as ->. simpl.
           rewrite lookup_insert_eq. eauto.
    + assert (Hs : seen st1 = seen st)
        by (eapply filter_item_other; [exact Hstep | discriminate]).
      split; [done|]. intros a Ha. rewrite Hs. by apply Hall.
Qed.

Lemma filter_sources_distinct srcs results st found st' :
  filter_sources W clock cfg since_ts srcs results st = (Return found, st') ->
  distinct_in results st -> distinct_in found st'.
Proof.
  revert results st. induction srcs as [|src rest IH]; intros results st; simpl.
  - run_monad. by intros [= <- <-].
  - unfold mbind, M_bind at 1.
    destruct (filter_items W clock cfg since_ts src _ results st) as [[r1|e] st1] eqn:Hin;
      [|discriminate].
    intros Hrest Hd. apply (IH _ _ Hrest). by eapply filter_items_distinct.
Qed.

End Distinct.

(** C6, as the code has it.  Of the candidate items that share a URL at most
    one is accepted.  Within a source the fetcher keeps the first item of
    every URL.  Across the run no two accepted articles share a URL, none of
    them was in the ledger the run started from, each is in the ledger
    afterwards, and from then on an item with the URL of an accepted article
    is rejected by the ledger check. *)
Theorem at_most_one_article_per_url
    (W : Web) (clock : nat -> Z) (srcs : list Source) (cfg : Config) (since_ts : Z)
    (st : State) (found : list Article.t) (st' : State) :
  filter_and_collect W clock srcs cfg since_ts st = (Return found, st') ->
  (forall src, src ∈ srcs ->
     keeps_first (fetch_urls W (default [] (urls src))) (fetch_source_items W src)) /\
  NoDup (Article.url <$> found) /\
  (forall art, art ∈ found ->
     seen st !! hash_id (Article.url art) = None /\
     is_Some (seen st' !! hash_id (Article.url art))) /\
  (forall art src it st'',
     art ∈ found -> Item.url it = Article.url art -> seen st' ⊆ seen st'' ->
     filter_item W clock cfg since_ts src it st'' = (Return None, st'')).
Proof.
  intros Hrun.
  assert (Hd : distinct_in found st').
  { eapply filter_sources_distinct; [exact Hrun|]. split; [constructor|].
    intros art Hart. inversion Hart. }
  destruct Hd as [Hnd Hall].
  split; [intros src _; apply fetch_source_items_keeps_first|].
  split; [exact Hnd|]. split.
  - intros art Hart. split; [|by apply Hall].
    apply filter_sources_accepted in Hrun as (acc & -> & Hacc).
    rewrite Forall_forall in Hacc.
    destruct (Hacc art Hart) as (src & it & sti & _ & _ & Hsub & [sti' Ha]).
    apply filter_item_accept in Ha as (Hnone & _ & _ & -> & _). simpl.
    destruct (seen st !! hash_id (Item.url it)) as [v|] eqn:Hv; [|done].
    eapply lookup_weaken in Hv; [|exact Hsub]. congruence.
  - intros art src it st'' Hart Hurl Hsub. apply filter_item_known.
    rewrite Hurl. destruct (Hall art Hart) as [v Hv].
    exists v. by eapply lookup_weaken.
Qed.

Lemma at_most_one_article_per_url_witness :
  (forall src, src ∈ [SameLink.src_a; SameLink.src_b; SameLink.src_c] ->
     keeps_first (fetch_urls SameLink.W (default [] (urls src)))
       (fetch_source_items SameLink.W src)) /\
  NoDup (Article.url <$> [article_of SameLink.W SameLink.src_b SameLink.item_b 1700000000]) /\
  (forall art, art ∈ [article_of SameLink.W SameLink.src_b SameLink.item_b 1700000000] ->
     seen Scenario.st0 !! hash_id (Article.url art) = None /\
     is_Some (seen SameLink.st1 !! hash_id (Article.url art))) /\
  (forall art src it st'',
     art ∈ [article_of SameLink.W SameLink.src_b SameLink.item_b 1700000000] ->
     Item.url it = Article.url art -> seen SameLink.st1 ⊆ seen st'' ->
     filter_item SameLink.W Scenario.readings Scenario.cfg Scenario.since_ts src it st''
       = (Return None, st'')).
Proof.
  apply (at_most_one_article_per_url SameLink.W Scenario.readings
           [SameLink.src_a; SameLink.src_b; SameLink.src_c] Scenario.cfg
           Scenario.since_ts Scenario.st0).
  vm_compute. reflexivity.
Defined.

(** C6, as stated, fails when the first of two items with one URL is
    rejected for its text: the first source yields an item that matches no
    keyword, the second source an item with the same URL and another title,
    and the run accepts the second. *)
Lemma second_item_of_a_url_is_accepted :
  SameLink.item_a ∈ fetch_source_items SameLink.W SameLink.src_a /\
  SameLink.item_b ∈ fetch_source_items SameLink.W SameLink.src_b /\
  Item.url SameLink.item_a = Item.url SameLink.item_b /\
  Item.title SameLink.item_a <> Item.title SameLink.item_b /\
  filter_and_collect SameLink.W Scenario.readings [SameLink.src_a; SameLink.src_b]
    Scenario.cfg Scenario.since_ts Scenario.st0
  = (Return [article_of SameLink.W SameLink.src_b SameLink.item_b 1700000000], SameLink.st1).
Proof.
  split; [vm_compute; left|]. split; [vm_compute; left|].
  split; [reflexivity|]. split; [discriminate|].
  vm_compute. reflexivity.
Qed.

(** ** A second run *)

Lemma settled_mono cfg since1 since2 (m1 m2 : gmap string Z) it :
  m1 ⊆ m2 -> since1 <= since2 ->
  settled cfg since1 m1 it -> settled cfg since2 m2 it.
Proof.
  intros Hm Hs [[v Hv] | [(p & Hp & Hnz & Hlt) | Hk]].
  - left. exists v. by eapply lookup_weaken.
  - right. left. exists p. split; [done|]. split; [done | lia].
  - right. by right.
Qed.

(** When no reading of the clock is before the cut-off, an item that was
    evaluated without an exception is settled. *)
Lemma filter_item_settles W clock cfg since_ts src it st o st' :
  (forall k, since_ts <= clock k) ->
  filter_item W clock cfg since_ts src it st = (Return o, st') ->
  settled cfg since_ts (seen st') it.
Proof.
  intros Hclock H. destruct o as [art|].
  { apply filter_item_accept in H as (_ & _ & _ & _ & now & ->).
    left. rewrite lookup_insert_eq. eauto. }
  revert H. unfold filter_item, settled, keyword_reject. run_monad.
  case_bool_decide as Hk; [intros [= <-]; by left|].
  destruct (published_or_now_eq clock it st) as (st1 & -> & Hs1 & _).
  destruct (effective_ts clock it st <? since_ts) eqn:Hlt.
  { intros _. right. left. apply Z.ltb_lt in Hlt. revert Hlt. unfold effective_ts.
    destruct (Item.published_ts it) as [p|].
    - destruct (p =? 0) eqn:Hz.
      + specialize (Hclock (ticks st)). lia.
      + intros Hlt. exists p. split; [done|]. split; [by apply Z.eqb_neq | done].
    - specialize (Hclock (ticks st)). lia. }
  intros H. right. right. revert H.
  destruct (competitors cfg) as [cs|]; simpl; [|discriminate].
  destruct (contains_any _ cs); simpl; [|done].
  destruct (industries cfg) as [ins|]; simpl; [|discriminate].
  destruct (contains_any _ ins); simpl; [|done].
  destruct (legal_filter _ _ cfg); simpl; [discriminate | done].
Qed.

(** A settled item is rejected, whatever the clock and the source. *)
Lemma filter_item_settled W clock cfg since_ts src it st :
  settled cfg since_ts (seen st) it ->
  exists st', filter_item W clock cfg since_ts src it st = (Return None, st')
    /\ seen st' = seen st.
Proof.
  intros Hs.
  destruct (decide (is_Some (seen st !! hash_id (Item.url it)))) as [Hk|Hk].
  { exists st. split; [by apply filter_item_known | done]. }
  destruct (published_or_now_eq clock it st) as (st1 & Hp & Hs1 & _).
  unfold filter_item. run_monad. rewrite bool_decide_eq_false_2 by done.
  rewrite Hp. exists st1. split; [|done].
  destruct (effective_ts clock it st <? since_ts) eqn:Hlt; [done|].
  destruct Hs as [Hin | [(p & Hpub & Hnz & Hlt') | Hkw]]; [done| |].
  - exfalso. apply Z.ltb_ge in Hlt. unfold effective_ts in Hlt. rewrite Hpub in Hlt.
    apply Z.eqb_neq in Hnz. rewrite Hnz in Hlt. lia.
  - revert Hkw. unfold keyword_reject.
    destruct (competitors cfg) as [cs|]; simpl; [|discriminate].
    destruct (contains_any _ cs); simpl; [|done].
    destruct (industries cfg) as [ins|]; simpl; [|discriminate].
    destruct (contains_any _ ins); simpl; [|done].
    destruct (legal_filter _ _ cfg); simpl; [discriminate | done].
Qed.

Section SecondRun.

Variables (W : Web) (cfg : Config).

Lemma filter_items_settles clock since_ts src items results st found st' :
  (forall k, since_ts <= clock k) ->
  filter_items W clock cfg since_ts src items results st = (Return found, st') ->
  Forall (settled cfg since_ts (seen st')) items.
Proof.
  intros Hclock. revert results st.
  induction items as [|it rest IH]; intros results st; simpl; [constructor|].
  unfold mbind, M_bind at 1.
  destruct (filter_item W clock cfg since_ts src it st) as [[o|e] st1] eqn:Hstep;
    [|discriminate].
  intros Hrest. constructor; [|by eapply IH].
  eapply settled_mono; [eapply filter_items_grows; exact Hrest | reflexivity |].
  by eapply filter_item_settles.
Qed.

Lemma filter_sources_settles clock since_ts srcs results st found st' :
  (forall k, since_ts <= clock k) ->
  filter_sources W clock cfg since_ts srcs results st = (Return found, st') ->
  Forall (fun src => Forall (settled cfg since_ts (seen st')) (fetch_source_items W src)) srcs.
Proof.
  intros Hclock. revert results st.
  induction srcs as [|src rest IH]; intros results st; simpl; [constructor|].
  unfold mbind, M_bind at 1.
  destruct (filter_items W clock cfg since_ts src _ results st) as [[r1|e] st1] eqn:Hin;
    [|discriminate].
  intros Hrest. constructor; [|by eapply IH].
  eapply Forall_impl; [eapply filter_items_settles; [exact Hclock | exact Hin]|].
  intros it. apply settled_mono; [|reflexivity].
  eapply filter_sources_grows. exact Hrest.
Qed.

Lemma filter_items_settled clock since_ts src items results st :
  Forall (settled cfg since_ts (seen st)) items ->
  exists st', filter_items W clock cfg since_ts src items results st = (Return results, st')
    /\ seen st' = seen st.
Proof.
  revert st. induction items as [|it rest IH]; intros st Hall; simpl.
  - exists st. by run_monad.
  - inversion Hall as [|? ? Hit Hrest]; subst.
    destruct (filter_item_settled W clock cfg since_ts src it st Hit) as (st1 & Hstep & Hs1).
    unfold mbind, M_bind at 1. rewrite Hstep.
    destruct (IH st1) as (st' & Hrun & Hs'); [by rewrite Hs1|].
    exists st'. split; [done | congruence].
Qed.

Lemma filter_sources_settled clock since_ts srcs results st :
  Forall (fun src => Forall (settled cfg since_ts (seen st)) (fetch_source_items W src)) srcs ->
  exists st', filter_sources W clock cfg since_ts srcs results st = (Return results, st')
    /\ seen st' = seen st.
Proof.
  revert st. induction srcs as [|src rest IH]; intros st Hall; simpl.
  - exists st. by run_monad.
  - inversion Hall as [|? ? Hsrc Hrest]; subst.
    destruct (filter_items_settled clock since_ts src _ results st Hsrc)
      as (st1 & Hstep & Hs1).
    unfold mbind, M_bind at 1. rewrite Hstep.
    destruct (IH st1) as (st' & Hrun & Hs'); [by rewrite Hs1|].
    exists st'. split; [done | congruence].
Qed.

(** A run that follows a completed run, on the ledger that run left and
    with a cut-off that is not earlier, accepts nothing and leaves the
    ledger as it is. *)
Lemma second_filter_run_is_empty clock1 clock2 since1 since2 srcs st found st1 st2 :
  (forall k, since1 <= clock1 k) -> since1 <= since2 ->
  filter_and_collect W clock1 srcs cfg since1 st = (Return found, st1) ->
  seen st2 = seen st1 ->
  exists st2', filter_and_collect W clock2 srcs cfg since2 st2 = (Return [], st2')
    /\ seen st2' = seen st1.
Proof.
  intros Hclock Hsince Hrun Hseen.
  apply filter_sources_settles in Hrun; [|exact Hclock].
  destruct (filter_sources_settled clock2 since2 srcs [] st2) as (st2' & H2 & Hs2).
  - eapply Forall_impl; [exact Hrun|]. intros src Hsrc.
    eapply Forall_impl; [exact Hsrc|]. intros it. rewrite Hseen.
    by apply settled_mono.
  - exists st2'. split; [exact H2 | congruence].
Qed.

End SecondRun.

(** C5, as the code has it.  When [main] has run its filter to the end,
    from any ledger, a second run on the ledger the first one left, with
    the same configuration and the same answers of the web, accepts no
    article and leaves the ledger unchanged, provided that the cut-off of
    the second run is not earlier than the cut-off of the first and that no
    reading of the clock in the first run is before its cut-off.  The
    identifier of every article of the first run is in that ledger, and the
    ledger check rejects an item with its URL. *)
Theorem second_run_accepts_nothing
    (w1 w2 : World) (cfg : Config) (m0 : gmap string Z)
    (found : list Article.t) (st1 : State) :
  collect w1 cfg {| seen := m0; ticks := O |} = (Return found, st1) ->
  web w2 = web w1 ->
  (forall k, since_of (zone w1) (clock w1 O) <= clock w1 k) ->
  since_of (zone w1) (clock w1 O) <= since_of (zone w2) (clock w2 O) ->
  (exists st2, collect w2 cfg {| seen := seen st1; ticks := O |} = (Return [], st2)
     /\ seen st2 = seen st1) /\
  (forall art src it st,
     art ∈ found -> Item.url it = Article.url art -> seen st1 ⊆ seen st ->
     is_Some (seen st !! hash_id (Item.url it)) /\
     forall since_ts,
       filter_item (web w2) (clock w2) cfg since_ts src it st = (Return None, st)).
Proof.
  unfold collect. run_monad. intros Hrun Hweb Hclock Hsince. split.
  - rewrite Hweb.
    eapply second_filter_run_is_empty; [exact Hclock | exact Hsince | exact Hrun | reflexivity].
  - intros art src it st Hart Hurl Hsub.
    assert (Hk : is_Some (seen st !! hash_id (Item.url it))).
    { assert (Hd : distinct_in found st1).
      { eapply filter_sources_distinct; [exact Hrun|]. split; [constructor|].
        intros a Ha. inversion Ha. }
      destruct Hd as [_ Hall]. destruct (Hall art Hart) as [v Hv].
      rewrite Hurl. exists v. by eapply lookup_weaken. }
    split; [exact Hk|]. intros since_ts. by apply filter_item_known.
Qed.

Lemma second_run_accepts_nothing_witness :
  (exists st2, collect Scenario.world Scenario.cfg
                 {| seen := seen Scenario.st2; ticks := O |} = (Return [], st2)
     /\ seen st2 = seen Scenario.st2) /\
  (forall art src it st,
     art ∈ [article_of Scenario.W Scenario.src Scenario.item 1700000000] ->
     Item.url it = Article.url art -> seen Scenario.st2 ⊆ seen st ->
     is_Some (seen st !! hash_id (Item.url it)) /\
     forall since_ts,
       filter_item Scenario.W Scenario.readings Scenario.cfg since_ts src it st
       = (Return None, st)).
Proof.
  apply (second_run_accepts_nothing Scenario.world Scenario.world Scenario.cfg ∅
           [article_of Scenario.W Scenario.src Scenario.item 1700000000] Scenario.st2).
  - vm_compute. reflexivity.
  - reflexivity.
  - intros k. unfold since_of. simpl. unfold Scenario.readings, DAY. lia.
  - lia.
Defined.

(** C5, as stated, fails across the end of daylight time.  The cut-off is
    eight days back on the wall clock of Toronto: for the run that starts
    ten seconds before the change it is 1729922390, for the run that starts
    fifteen seconds later it is 1729918805, an hour less five seconds
    earlier.  The first run rejects the item dated 1729920000 as too old and
    leaves the ledger empty; the second run, on that ledger and the same
    feed, accepts it. *)
Lemma second_run_after_time_change_accepts :
  clock TimeChange.first_run O <= clock TimeChange.second_run O /\
  web TimeChange.second_run = web TimeChange.first_run /\
  since_of (zone TimeChange.first_run) (clock TimeChange.first_run O) = 1729922390 /\
  since_of (zone TimeChange.second_run) (clock TimeChange.second_run O) = 1729918805 /\
  collect TimeChange.first_run Scenario.cfg {| seen := ∅; ticks := O |}
  = (Return [], {| seen := ∅; ticks := 1 |}) /\
  collect TimeChange.second_run Scenario.cfg {| seen := ∅; ticks := O |}
  = (Return [article_of TimeChange.W Scenario.src TimeChange.item 1729920000],
     {| seen := {[ Scenario.uid := 1730613606 ]}; ticks := 2 |}).
Proof.
  split; [vm_compute; discriminate|]. split; [reflexivity|].
  split; [vm_compute; reflexivity|]. split; [vm_compute; reflexivity|].
  split; vm_compute; reflexivity.
Qed.

(** ** Exceptions of the filter *)

Lemma filter_item_raise W clock cfg since_ts src it st e st' :
  filter_item W clock cfg since_ts src it st = (Raise e, st') ->
  (e = KeyError "competitors" /\ competitors cfg = None) \/
  (e = KeyError "industries" /\ industries cfg = None).
Proof.
  unfold filter_item. run_monad.
  case_bool_decide as Hk; [discriminate|].
  destruct (published_or_now_eq clock it st) as (st1 & -> & _).
  destruct (effective_ts clock it st <? since_ts); [discriminate|].
  destruct (competitors cfg) as [cs|]; simpl; [|intros [= <- _]; by left].
  destruct (contains_any _ cs); simpl; [|discriminate].
  destruct (industries cfg) as [ins|]; simpl; [|intros [= <- _]; by right].
  destruct (contains_any _ ins); simpl; [|discriminate].
  destruct (legal_filter _ _ cfg); simpl; discriminate.
Qed.

(** One of the three keyword lists is not in the configuration. *)
Lemma keywords_match_present cfg it :
  keywords_match cfg it ->
  is_Some (competitors cfg) /\ is_Some (industries cfg) /\ is_Some (legal_keywords cfg).
Proof.
  intros ((cs & -> & _) & (ins & -> & _) & (ls & -> & _)). eauto.
Qed.

Lemma filter_items_raise W clock cfg since_ts src items results st e st' :
  filter_items W clock cfg since_ts src items results st = (Raise e, st') ->
  competitors cfg = None \/ industries cfg = None.
Proof.
  revert results st. induction items as [|it rest IH]; intros results st; simpl.
  - run_monad. discriminate.
  - unfold mbind, M_bind at 1.
    destruct (filter_item W clock cfg since_ts src it st) as [[o|e1] st1] eqn:Hstep.
    + apply IH.
    + intros _. apply filter_item_raise in Hstep as [[_ Hc] | [_ Hi]]; [by left | by right].
Qed.

Lemma filter_sources_raise W clock cfg since_ts srcs results st e st' :
  filter_sources W clock cfg since_ts srcs results st = (Raise e, st') ->
  competitors cfg = None \/ industries cfg = None.
Proof.
  revert results st. induction srcs as [|src rest IH]; intros results st; simpl.
  - run_monad. discriminate.
  - unfold mbind, M_bind at 1.
    destruct (filter_items W clock cfg since_ts src _ results st) as [[r1|e1] st1] eqn:Hin.
    + apply IH.
    + intros _. by apply filter_items_raise in Hin.
Qed.

Section Absent.

Variables (W : Web) (clock : nat -> Z) (cfg : Config) (since_ts : Z).

Hypothesis absent :
  competitors cfg = None \/ industries cfg = None \/ legal_keywords cfg = None.

Lemma filter_item_absent src it st out st' :
  filter_item W clock cfg since_ts src it st = (out, st') ->
  seen st' = seen st /\
  (out = Return None \/
   (out = Raise (KeyError "competitors") /\ competitors cfg = None) \/
   (out = Raise (KeyError "industries") /\ industries cfg = None)).
Proof.
  intros H. destruct out as [[art|]|e].
  - exfalso. apply filter_item_accept in H as (_ & _ & Hk & _).
    apply keywords_match_present in Hk as ([? Hc] & [? Hi] & [? Hl]).
    destruct absent as [Ha | [Ha | Ha]]; congruence.
  - split; [|by left]. eapply filter_item_other; [exact H | discriminate].
  - split; [eapply filter_item_other; [exact H | discriminate]|].
    right. apply filter_item_raise in H as [[-> Hc] | [-> Hi]]; [by left | by right].
Qed.

Lemma filter_items_absent src items results st out st' :
  filter_items W clock cfg since_ts src items results st = (out, st') ->
  seen st' = seen st /\
  (out = Return results \/
   (out = Raise (KeyError "competitors") /\ competitors cfg = None) \/
   (out = Raise (KeyError "industries") /\ industries cfg = None)).
Proof.
  revert st. induction items as [|it rest IH]; intros st; simpl.
  - run_monad. intros [= <- <-]. split; [done | by left].
  - unfold mbind, M_bind at 1.
    destruct (filter_item W clock cfg since_ts src it st) as [o st1] eqn:Hstep.
    apply filter_item_absent in Hstep as (Hs1 & [-> | [[-> Hc] | [-> Hi]]]).
    + intros Hrest. apply IH in Hrest as [Hs' Hout]. split; [congruence | done].
    + intros [= <- <-]. split; [done|]. right. by left.
    + intros [= <- <-]. split; [done|]. right. by right.
Qed.

Lemma filter_sources_absent srcs results st out st' :
  filter_sources W clock cfg since_ts srcs results st = (out, st') ->
  seen st' = seen st /\
  (out = Return results \/
   (out = Raise (KeyError "competitors") /\ competitors cfg = None) \/
   (out = Raise (KeyError "industries") /\ industries cfg = None)).
Proof.
  revert st. induction srcs as [|src rest IH]; intros st; simpl.
  - run_monad. intros [= <- <-]. split; [done | by left].
  - unfold mbind, M_bind at 1.
    destruct (filter_items W clock cfg since_ts src _ results st) as [o st1] eqn:Hstep.
    apply filter_items_absent in Hstep as (Hs1 & [-> | [[-> Hc] | [-> Hi]]]).
    + intros Hrest. apply IH in Hrest as [Hs' Hout]. split; [congruence | done].
    + intros [= <- <-]. split; [done|]. right. by left.
    + intros [= <- <-]. split; [done|]. right. by right.
Qed.

End Absent.

(** A filter pass that raises has accepted nothing: the ledger is the one
    it started from. *)
Lemma filter_sources_raise_unchanged W clock cfg since_ts srcs results st e st' :
  filter_sources W clock cfg since_ts srcs results st = (Raise e, st') ->
  seen st' = seen st.
Proof.
  intros H. pose proof (filter_sources_raise _ _ _ _ _ _ _ _ _ H) as Habs.
  eapply filter_sources_absent; [|exact H].
  destruct Habs as [Hc|Hi]; [by left | right; by left].
Qed.

(** ** The run *)

Lemma build_slack_blocks_returns clock found st :
  exists blocks st', build_slack_blocks clock found st = (Return blocks, st').
Proof.
  destruct found as [|art rest]; simpl; run_monad; eauto.
Qed.

(** C3, as the code has it.  When the filter pass of a run completes,
    whatever it found, [main] saves the ledger exactly once, before
    delivery: the events of the run are the save of the ledger the filter
    left, then the print or the post of the payload, and the outcome of the
    run is that of the delivery, so that a delivery failure is raised after
    the save.  When the filter pass raises, [main] raises the same
    exception and saves nothing; the pass has then accepted nothing, and
    the ledger in memory is the one that was loaded. *)
Theorem ledger_saved_once_before_delivery
    (w : World) (cfg : Config) (r : Outcome (list Article.t)) (st : State) :
  config_file w = Some cfg ->
  collect w cfg {| seen := load_seen (seen_file w); ticks := O |} = (r, st) ->
  (forall found, r = Return found ->
     exists out blocks delivery,
       main w = (out, [SaveSeen (seen st); delivery]) /\
       ((delivery = Print blocks /\ out = Return tt) \/
        (delivery = Post (Str.strip (webhook_env w)) blocks /\
         out = post_to_slack w (Str.strip (webhook_env w)) blocks))) /\
  (forall e, r = Raise e ->
     main w = (Raise e, []) /\ seen st = load_seen (seen_file w)).
Proof.
  intros Hcfg Hrun. unfold main. rewrite Hcfg, Hrun. split.
  - intros found ->.
    destruct (build_slack_blocks_returns (clock w) found st) as (blocks & st' & ->).
    destruct (Str.is_empty (Str.strip (webhook_env w))).
    + exists (Return tt), blocks, (Print blocks). split; [reflexivity | by left].
    + eexists _, blocks, _. split; [reflexivity | by right].
  - intros e ->. split; [reflexivity|].
    unfold collect in Hrun. run_monad.
    by apply filter_sources_raise_unchanged in Hrun.
Qed.

Lemma ledger_saved_once_before_delivery_witness :
  (forall found, Return [article_of Scenario.W Scenario.src Scenario.item 1700000000] = Return found ->
     exists out blocks delivery,
       main Scenario.world = (out, [SaveSeen (seen Scenario.st2); delivery]) /\
       ((delivery = Print blocks /\ out = Return tt) \/
        (delivery = Post (Str.strip (webhook_env Scenario.world)) blocks /\
         out = post_to_slack Scenario.world (Str.strip (webhook_env Scenario.world)) blocks))) /\
  (forall e, Return [article_of Scenario.W Scenario.src Scenario.item 1700000000] = Raise e ->
     main Scenario.world = (Raise e, []) /\
     seen Scenario.st2 = load_seen (seen_file Scenario.world)).
Proof.
  apply (ledger_saved_once_before_delivery Scenario.world Scenario.cfg
           (Return [article_of Scenario.W Scenario.src Scenario.item 1700000000]) Scenario.st2).
  - reflexivity.
  - vm_compute. reflexivity.
Defined.

(** C3, as stated, fails when the filter pass raises: the configuration has
    no [competitors], the one item of the feed is new and recent, and the
    run ends with the lookup failure without a save of the ledger. *)
Lemma failed_filter_pass_saves_nothing :
  competitors Scenario.cfg_no_competitors = None /\
  main (Scenario.world_with Scenario.cfg_no_competitors)
  = (Raise (KeyError "competitors"), []).
Proof.
  split; [reflexivity|]. vm_compute. reflexivity.
Qed.




(** ** The HTML fetcher *)

Lemma take_all n s : (String.length s <= n)%nat -> Str.take n s = s.
Proof.
  revert n. induction s as [|c s IH]; intros n Hn.
  - by destruct n.
  - destruct n as [|n]; simpl in *; [lia|]. rewrite IH; [done | lia].
Qed.

Lemma is_empty_false text : Str.is_empty text = false <-> text <> "".
Proof. destruct text; simpl; split; congruence. Qed.

Lemma article_like_spec href :
  article_like href = true <->
  exists seg, seg ∈ article_segments /\ Str.contains seg href = true.
Proof.
  unfold article_like. rewrite existsb_exists.
  split; intros (seg & Hin & Hc); exists seg; (split; [|done]); by apply list_elem_of_In.
Qed.

Lemma collect_links_kept W url anchors links :
  collect_links W url anchors = Some links ->
  Forall (kept_link url anchors) links.
Proof.
  assert (Hgen : forall rest ls,
    (forall a, a ∈ rest -> a ∈ anchors) ->
    collect_links W url rest = Some ls ->
    Forall (kept_link url anchors) ls); [|by apply Hgen].
  induction rest as [|[href text] rest IH]; intros ls Hsub; cbn [collect_links]; cbv zeta.
  { intros [= <-]. constructor. }
  assert (Hrest : forall a, a ∈ rest -> a ∈ anchors) by (intros a Ha; apply Hsub; by right).
  destruct (Str.is_empty text) eqn:Hempty; [by apply IH|].
  destruct (parse_fails W url || parse_fails W (resolve url href)); [discriminate|].
  destruct (String.eqb _ _) eqn:Hloc; cbn [negb]; [|by apply IH].
  destruct (article_like _) eqn:Hlike; [|by apply IH].
  destruct (collect_links W url rest) as [ls'|]; [|discriminate].
  intros [= <-]. constructor; [|by apply IH].
  exists href, text. split; [apply Hsub; left|]. split; [by apply is_empty_false|].
  split; [reflexivity|]. split; [by apply String.eqb_eq | by apply article_like_spec].
Qed.

(** The loop is left by the exception exactly when a link fails to parse. *)
Lemma collect_links_raises W url anchors :
  collect_links W url anchors = None <-> links_parse W url anchors = false.
Proof.
  induction anchors as [|[href text] rest IH]; cbn [collect_links links_parse forallb fst snd];
    cbv zeta; [done|].
  fold (links_parse W url rest).
  destruct (Str.is_empty text); cbn [orb]; [exact IH|].
  destruct (parse_fails W url || parse_fails W (resolve url href)); cbn [negb andb]; [done|].
  destruct (negb _); [exact IH|].
  destruct (article_like _); [|exact IH].
  destruct (collect_links W url rest); simpl; [|exact IH].
  split; [done|]. intros H. by apply IH in H.
Qed.

Lemma collect_links_none W url anchors :
  links_parse W url anchors = true ->
  (forall href text, (href, text) ∈ anchors -> text <> "" ->
     Url.netloc (Url.urlparse (resolve url href)) = Url.netloc (Url.urlparse url) ->
     article_like (resolve url href) = false) ->
  collect_links W url anchors = Some [].
Proof.
  intros Hparse Hnone.
  destruct (collect_links W url anchors) as [links|] eqn:Hc.
  - pose proof (collect_links_kept W url anchors links Hc) as Hk.
    destruct links as [|it rest]; [done|]. exfalso.
    inversion Hk as [|? ? (href & text & Hin & Htext & _ & Hloc & Hseg) _]; subst.
    apply article_like_spec in Hseg. rewrite (Hnone href text) in Hseg; done.
  - apply collect_links_raises in Hc. congruence.
Qed.

(** C7, as the code has it.  A page that was fetched and none of whose
    anchors qualifies, each being without text, on another host or not
    article-like, yields exactly one candidate when no link makes
    [urlparse] raise: the page itself, under its own URL, with the first
    200 characters of the derived title, the first 500 of the derived
    description and no published time; a title or description within those
    lengths is carried whole.  When a link of an anchor with text makes
    [urlparse] raise, the exception is caught and the page yields no
    candidate. *)
Theorem page_without_links_yields_itself (W : Web) (url : string) (pg : Page.t) :
  page W url = Some pg ->
  (forall href text, (href, text) ∈ Page.anchors pg -> text <> "" ->
     Url.netloc (Url.urlparse (resolve url href)) = Url.netloc (Url.urlparse url) ->
     article_like (resolve url href) = false) ->
  (links_parse W url (Page.anchors pg) = true ->
   try_html W url =
     [{| Item.url := url;
         Item.title := Str.take 200 (page_title url pg);
         Item.summary := Str.take 500 (page_desc pg);
         Item.published_ts := None |}]) /\
  (links_parse W url (Page.anchors pg) = false -> try_html W url = []) /\
  ((String.length (page_title url pg) <= 200)%nat ->
     Str.take 200 (page_title url pg) = page_title url pg) /\
  ((String.length (page_desc pg) <= 500)%nat ->
     Str.take 500 (page_desc pg) = page_desc pg).
Proof.
  intros Hpage Hnone. split; [|split; [|split; apply take_all]].
  - intros Hparse. unfold try_html.
    rewrite Hpage, (collect_links_none _ _ _ Hparse Hnone). reflexivity.
  - intros Hparse. apply collect_links_raises in Hparse.
    unfold try_html. by rewrite Hpage, Hparse.
Qed.

Lemma page_without_links_yields_itself_witness :
  (links_parse (Pages.W Pages.bare) Pages.url (Page.anchors Pages.bare) = true ->
   try_html (Pages.W Pages.bare) Pages.url =
     [{| Item.url := Pages.url;
         Item.title := Str.take 200 (page_title Pages.url Pages.bare);
         Item.summary := Str.take 500 (page_desc Pages.bare);
         Item.published_ts := None |}]) /\
  (links_parse (Pages.W Pages.bare) Pages.url (Page.anchors Pages.bare) = false ->
   try_html (Pages.W Pages.bare) Pages.url = []) /\
  ((String.length (page_title Pages.url Pages.bare) <= 200)%nat ->
     Str.take 200 (page_title Pages.url Pages.bare) = page_title Pages.url Pages.bare) /\
  ((String.length (page_desc Pages.bare) <= 500)%nat ->
     Str.take 500 (page_desc Pages.bare) = page_desc Pages.bare).
Proof.
  apply (page_without_links_yields_itself (Pages.W Pages.bare) Pages.url Pages.bare).
  - reflexivity.
  - intros href text Hin Htext Hloc. simpl in Hin.
    repeat (apply elem_of_cons in Hin as [Hin|Hin];
            [injection Hin as -> ->; first [done | vm_compute in Hloc; discriminate
                                             | vm_compute; reflexivity]|]).
    inversion Hin.
Defined.

(** C7, as stated, fails when a link does not parse: the page was fetched,
    its one anchor is on another network location and not article-like, so
    that no link qualifies, [urlparse] raises on its link for the bracket
    without a partner, and [try_html] returns nothing, not the page. *)
Lemma page_with_malformed_link_yields_nothing :
  page (Pages.W Pages.broken) Pages.url = Some Pages.broken /\
  Page.anchors Pages.broken = [("http://[", "x")] /\
  article_like (resolve Pages.url "http://[") = false /\
  Url.unbalanced "http://[" = true /\
  try_html (Pages.W Pages.broken) Pages.url = [].
Proof.
  split; [reflexivity|]. split; [reflexivity|].
  split; [vm_compute; reflexivity|]. split; vm_compute; reflexivity.
Qed.

(** C8, as the code has it.  The items [try_html] returns for a page are at
    most 50, and they are the page itself or items of anchors: an anchor
    with text, whose link, after a link that starts with a slash has been
    prefixed with the scheme and the network location of the page, has the
    network location of the page and contains one of the five article
    segments somewhere in it.  A link that does not start with a slash is
    taken as it is. *)
Theorem html_links_are_on_site_and_article_like (W : Web) (url : string) (pg : Page.t) :
  page W url = Some pg ->
  (length (try_html W url) <= 50)%nat /\
  (try_html W url = [page_item url pg] \/
   Forall (kept_link url (Page.anchors pg)) (try_html W url)) /\
  (forall href, Str.startswith "/" href = true ->
     resolve url href
     = Url.scheme (Url.urlparse url) +:+ "://" +:+ Url.netloc (Url.urlparse url) +:+ href) /\
  (forall href, Str.startswith "/" href = false -> resolve url href = href).
Proof.
  intros Hpage.
  assert (Hres : (forall href, Str.startswith "/" href = true ->
                    resolve url href
                    = Url.scheme (Url.urlparse url) +:+ "://"
                      +:+ Url.netloc (Url.urlparse url) +:+ href) /\
                 (forall href, Str.startswith "/" href = false -> resolve url href = href))
    by (split; intros href Hs; unfold resolve; by rewrite Hs).
  unfold try_html. rewrite Hpage.
  destruct (collect_links W url (Page.anchors pg)) as [links|] eqn:Hc.
  - pose proof (collect_links_kept W url (Page.anchors pg) links Hc) as Hk.
    apply (Forall_take _ 50%nat) in Hk.
    pose proof (length_take links 50) as Hlen.
    destruct (take 50 links) as [|it rest] eqn:Htake.
    + split; [simpl; lia|]. split; [by left | exact Hres].
    + split; [rewrite Hlen; lia|]. split; [by right | exact Hres].
  - split; [simpl; lia|]. split; [right; constructor | exact Hres].
Qed.

Lemma html_links_are_on_site_and_article_like_witness :
  (length (try_html (Pages.W Pages.linked) Pages.url) <= 50)%nat /\
  (try_html (Pages.W Pages.linked) Pages.url = [page_item Pages.url Pages.linked] \/
   Forall (kept_link Pages.url (Page.anchors Pages.linked))
     (try_html (Pages.W Pages.linked) Pages.url)) /\
  (forall href, Str.startswith "/" href = true ->
     resolve Pages.url href
     = Url.scheme (Url.urlparse Pages.url) +:+ "://"
       +:+ Url.netloc (Url.urlparse Pages.url) +:+ href) /\
  (forall href, Str.startswith "/" href = false -> resolve Pages.url href = href).
Proof.
  apply (html_links_are_on_site_and_article_like (Pages.W Pages.linked) Pages.url Pages.linked).
  reflexivity.
Defined.

(** A link that does not parse ends the loop also after links have been
    kept: nothing is returned. *)
Example malformed_link_after_a_kept_one :
  try_html
    (Pages.W {| Page.og_title := None; Page.title_string := None;
                Page.og_description := None; Page.meta_description := None;
                Page.anchors := [("/news/1", "One"); ("http://[", "x")] |})
    Pages.url
  = [].
Proof. vm_compute. reflexivity. Qed.

(** C8, as stated, fails on the path and on relative links: the link
    [/about?from=/news] is kept although its path, [/about], contains none
    of the segments, and the link [news/today.html], relative to the page, is
    not resolved against it and is dropped. *)
Lemma kept_link_without_article_path :
  try_html (Pages.W Pages.linked) Pages.url =
    [{| Item.url := "https://example.com/about?from=/news"; Item.title := "About us";
        Item.summary := ""; Item.published_ts := None |};
     {| Item.url := "https://example.com/news/2024/launch"; Item.title := "Launch";
        Item.summary := ""; Item.published_ts := None |}] /\
  Url.path (Url.urlparse "https://example.com/about?from=/news") = "/about" /\
  article_like "/about" = false /\
  ("news/today.html", "Today") ∈ Page.anchors Pages.linked /\
  resolve Pages.url "news/today.html" = "news/today.html".
Proof.
  split; [vm_compute; reflexivity|]. split; [vm_compute; reflexivity|].
  split; [vm_compute; reflexivity|]. split; [|reflexivity].
  right. left.
Qed.


(** * Further properties of the pipeline *)

(** ** Acceptance *)

Lemma published_or_now_exact clock it st :
  published_or_now clock it st
  = (Return (effective_ts clock it st),
     {| seen := seen st; ticks := (ticks st + readings_for it)%nat |}).
Proof.
  unfold published_or_now, effective_ts, readings_for.
  destruct st as [m n]. simpl.
  destruct (Item.published_ts it) as [p|]; [destruct (p =? 0)|]; run_monad;
    repeat f_equal; lia.
Qed.

(** X1. An item whose identifier is not in the ledger, whose effective
    timestamp is not before the cut-off and whose text matches the three
    keyword lists is accepted: the filter returns the article built from it,
    records its identifier with the reading of the clock taken at that
    moment, and has read the clock once more than the timestamp needed. *)
Theorem fresh_recent_matching_item_is_accepted
    (W : Web) (clock : nat -> Z) (cfg : Config) (since_ts : Z) (src : Source) (it : Item.t)
    (st : State) :
  seen st !! hash_id (Item.url it) = None ->
  since_ts <= effective_ts clock it st ->
  keywords_match cfg it ->
  filter_item W clock cfg since_ts src it st
  = (Return (Some (article_of W src it (effective_ts clock it st))),
     {| seen := <[hash_id (Item.url it) := clock (ticks st + readings_for it)%nat]> (seen st);
        ticks := S (ticks st + readings_for it) |}).
Proof.
  intros Hnone Hge ((cs & Hcs & Hm1) & (ins & Hins & Hm2) & (ls & Hls & Hm3)).
  unfold filter_item. run_monad.
  rewrite bool_decide_eq_false_2 by (rewrite Hnone; by intros [? ?]).
  rewrite published_or_now_exact. apply Z.ltb_ge in Hge. rewrite Hge, Hcs. simpl.
  apply contains_any_spec in Hm1. rewrite Hm1, Hins. simpl.
  apply contains_any_spec in Hm2. rewrite Hm2. simpl.
  unfold legal_filter. rewrite Hls. simpl.
  apply contains_any_spec in Hm3. rewrite Hm3. reflexivity.
Qed.

Lemma keywords_match_scenario : keywords_match Scenario.cfg Scenario.item.
Proof.
  split; [|split]; eexists; (split; [reflexivity|]);
    apply contains_any_spec; vm_compute; reflexivity.
Qed.

Lemma fresh_recent_matching_item_is_accepted_witness :
  filter_item Scenario.W Scenario.readings Scenario.cfg Scenario.since_ts Scenario.src
    Scenario.item Scenario.st0
  = (Return (Some (article_of Scenario.W Scenario.src Scenario.item
                     (effective_ts Scenario.readings Scenario.item Scenario.st0))),
     {| seen := <[hash_id (Item.url Scenario.item)
                  := Scenario.readings (ticks Scenario.st0 + readings_for Scenario.item)%nat]>
                  (seen Scenario.st0);
        ticks := S (ticks Scenario.st0 + readings_for Scenario.item) |}).
Proof.
  apply (fresh_recent_matching_item_is_accepted Scenario.W Scenario.readings Scenario.cfg
           Scenario.since_ts Scenario.src Scenario.item Scenario.st0).
  - reflexivity.
  - vm_compute. discriminate.
  - exact keywords_match_scenario.
Defined.

(** ** What a pass leaves behind *)

Section Trace.

Variables (W : Web) (clock : nat -> Z) (cfg : Config) (since_ts : Z).

Lemma filter_items_trace src items results st found st' :
  filter_items W clock cfg since_ts src items results st = (Return found, st') ->
  exists acc, found = results ++ acc /\
    (Article.url <$> acc) `sublist_of` (Item.url <$> items) /\
    (forall uid, is_Some (seen st' !! uid) <->
                 is_Some (seen st !! uid) \/ uid ∈ uids acc).
Proof.
  revert results st. induction items as [|it rest IH]; intros results st; simpl.
  - run_monad. intros [= <- <-]. exists []. rewrite app_nil_r.
    split; [done|]. split; [constructor|].
    intros uid. split; [by left | intros [H|H]; [done | inversion H]].
  - unfold mbind, M_bind at 1.
    destruct (filter_item W clock cfg since_ts src it st) as [[[art|]|e] st1] eqn:Hstep;
      [| |discriminate]; intros Hrest; apply IH in Hrest as (acc & -> & Hsub & Hdom).
    + apply filter_item_accept in Hstep as (_ & _ & _ & -> & now & Hst1).
      exists (article_of W src it (effective_ts clock it st) :: acc).
      split; [by rewrite <- app_assoc|]. split; [by constructor|].
      intros uid. rewrite Hdom, Hst1. unfold uids. rewrite fmap_cons, elem_of_cons. simpl.
      destruct (decide (hash_id (Item.url it) = uid)) as [<-|Hne].
      * rewrite lookup_insert_eq. split; [intros _; right; by left | intros _; left; eauto].
      * rewrite lookup_insert_ne by done. split; [intros [H|H]; auto | intros [H|[H|H]]; auto].
        congruence.
    + assert (Hs : seen st1 = seen st)
        by (eapply filter_item_other; [exact Hstep | discriminate]).
      exists acc. split; [done|]. split; [by constructor|].
      intros uid. by rewrite Hdom, Hs.
Qed.

Lemma filter_sources_trace srcs results st found st' :
  filter_sources W clock cfg since_ts srcs results st = (Return found, st') ->
  exists acc, found = results ++ acc /\
    (Article.url <$> acc)
      `sublist_of` (srcs ≫= fun src => Item.url <$> fetch_source_items W src) /\
    (forall uid, is_Some (seen st' !! uid) <->
                 is_Some (seen st !! uid) \/ uid ∈ uids acc).
Proof.
  revert results st. induction srcs as [|src rest IH]; intros results st; simpl.
  - run_monad. intros [= <- <-]. exists []. rewrite app_nil_r.
    split; [done|]. split; [constructor|].
    intros uid. split; [by left | intros [H|H]; [done | inversion H]].
  - unfold mbind, M_bind at 1.
    destruct (filter_items W clock cfg since_ts src _ results st) as [[r1|e] st1] eqn:Hin;
      [|discriminate].
    intros Hrest. apply IH in Hrest as (acc2 & -> & Hsub2 & Hdom2).
    apply filter_items_trace in Hin as (acc1 & -> & Hsub1 & Hdom1).
    exists (acc1 ++ acc2). split; [by rewrite app_assoc|]. split.
    + rewrite fmap_app. by apply sublist_app.
    + intros uid. rewrite Hdom2, Hdom1. unfold uids. rewrite fmap_app, elem_of_app.
      tauto.
Qed.

End Trace.

(** X2. After a pass that completes, the identifiers in the ledger are
    those it held before and those of the accepted articles, no other. *)
Theorem ledger_gains_exactly_the_accepted
    (W : Web) (clock : nat -> Z) (srcs : list Source) (cfg : Config) (since_ts : Z)
    (st : State) (found : list Article.t) (st' : State) (uid : string) :
  filter_and_collect W clock srcs cfg since_ts st = (Return found, st') ->
  is_Some (seen st' !! uid) <->
  is_Some (seen st !! uid) \/ exists art, art ∈ found /\ uid = hash_id (Article.url art).
Proof.
  intros Hrun. apply filter_sources_trace in Hrun as (acc & -> & _ & Hdom).
  rewrite Hdom. unfold uids. rewrite list_elem_of_fmap. simpl.
  split; (intros [H|(art & H1 & H2)]; [by left | right; by exists art]).
Qed.

Lemma ledger_gains_exactly_the_accepted_witness :
  is_Some (seen Scenario.st_old1 !! Scenario.uid) <->
  is_Some (seen Scenario.st_old !! Scenario.uid) \/
  exists art, art ∈ [article_of Scenario.W Scenario.src Scenario.item 1700000000] /\
              Scenario.uid = hash_id (Article.url art).
Proof.
  apply (ledger_gains_exactly_the_accepted Scenario.W Scenario.readings [Scenario.src]
           Scenario.cfg Scenario.since_ts Scenario.st_old
           [article_of Scenario.W Scenario.src Scenario.item 1700000000] Scenario.st_old1).
  vm_compute. reflexivity.
Defined.

(** X3. The articles a pass returns are in the order in which their items
    were fetched: source by source in the configured order, and within a
    source in the order of the fetcher's output. *)
Theorem articles_keep_the_fetch_order
    (W : Web) (clock : nat -> Z) (srcs : list Source) (cfg : Config) (since_ts : Z)
    (st : State) (found : list Article.t) (st' : State) :
  filter_and_collect W clock srcs cfg since_ts st = (Return found, st') ->
  (Article.url <$> found)
    `sublist_of` (srcs ≫= fun src => Item.url <$> fetch_source_items W src).
Proof.
  intros Hrun. by apply filter_sources_trace in Hrun as (acc & -> & Hsub & _).
Qed.

Lemma articles_keep_the_fetch_order_witness :
  (Article.url <$> [article_of SameLink.W SameLink.src_b SameLink.item_b 1700000000])
    `sublist_of` ([SameLink.src_a; SameLink.src_b; SameLink.src_c]
                    ≫= fun src => Item.url <$> fetch_source_items SameLink.W src).
Proof.
  apply (articles_keep_the_fetch_order SameLink.W Scenario.readings
           [SameLink.src_a; SameLink.src_b; SameLink.src_c] Scenario.cfg
           Scenario.since_ts Scenario.st0 _ SameLink.st1).
  vm_compute. reflexivity.
Defined.

(** X4. Every article of a run of [main] carries a timestamp that is not
    before the cut-off of the run: the timestamp of the wall-clock time,
    in the zone, eight days before the reading of the clock the run started
    with.  When the zone gives that wall-clock time the offset that is in
    force at the start, the cut-off is 691200 seconds before the start. *)
Theorem articles_are_within_eight_days
    (w : World) (cfg : Config) (st0 : State) (found : list Article.t) (st : State)
    (art : Article.t) :
  collect w cfg st0 = (Return found, st) ->
  art ∈ found ->
  since_of (zone w) (clock w (ticks st0)) <= Article.published_ts art /\
  (utcoffset_of_wall (zone w)
     (clock w (ticks st0) + utcoffset_at (zone w) (clock w (ticks st0)) - 8 * DAY)
   = utcoffset_at (zone w) (clock w (ticks st0)) ->
   clock w (ticks st0) - 8 * DAY <= Article.published_ts art).
Proof.
  unfold collect. run_monad. intros Hrun Hart.
  apply filter_sources_accepted in Hrun as (acc & -> & Hacc).
  rewrite Forall_forall in Hacc.
  destruct (Hacc art Hart) as (src & it & sti & _ & _ & _ & [sti' Ha]).
  apply filter_item_accept in Ha as (_ & Hge & _ & -> & _).
  cbn [Article.published_ts article_of]. split; [exact Hge|].
  intros Hoff. unfold since_of in Hge. cbv zeta in Hge. rewrite Hoff in Hge. lia.
Qed.

Lemma articles_are_within_eight_days_witness :
  since_of (zone Scenario.world) (clock Scenario.world (ticks Scenario.st0))
  <= Article.published_ts (article_of Scenario.W Scenario.src Scenario.item 1700000000) /\
  (utcoffset_of_wall (zone Scenario.world)
     (clock Scenario.world (ticks Scenario.st0)
      + utcoffset_at (zone Scenario.world) (clock Scenario.world (ticks Scenario.st0))
      - 8 * DAY)
   = utcoffset_at (zone Scenario.world) (clock Scenario.world (ticks Scenario.st0)) ->
   clock Scenario.world (ticks Scenario.st0) - 8 * DAY
   <= Article.published_ts (article_of Scenario.W Scenario.src Scenario.item 1700000000)).
Proof.
  apply (articles_are_within_eight_days Scenario.world Scenario.cfg Scenario.st0
           [article_of Scenario.W Scenario.src Scenario.item 1700000000] Scenario.st2).
  - vm_compute. reflexivity.
  - left.
Defined.

(** The cut-off for starts at 15:00Z on 2024-07-05, on 2024-11-05, in the
    eight days after the end of daylight time, and on 2024-03-12, in the
    eight days after its beginning: eight days, an hour more, an hour
    less. *)
Example cut_off_around_time_changes :
  1720191600 - since_of toronto_2024 1720191600 = 691200 /\
  1730818800 - since_of toronto_2024 1730818800 = 694800 /\
  1710255600 - since_of toronto_2024 1710255600 = 687600.
Proof. repeat split; vm_compute; reflexivity. Qed.

(** ** Keyword matching *)

Lemma lower_ascii_idem c : Str.lower_ascii (Str.lower_ascii c) = Str.lower_ascii c.
Proof. destruct c as [[] [] [] [] [] [] [] []]; reflexivity. Qed.

Lemma lower_idem s : Str.lower (Str.lower s) = Str.lower s.
Proof. induction s as [|c s IH]; simpl; [done|]. by rewrite lower_ascii_idem, IH. Qed.

Lemma contains_any_loop_app t k1 k2 :
  contains_any_loop t (k1 ++ k2) = contains_any_loop t k1 || contains_any_loop t k2.
Proof.
  induction k1 as [|k k1 IH]; simpl; [done|].
  by destruct (Str.contains (Str.lower k) t).
Qed.

Lemma contains_any_loop_lower t keywords :
  contains_any_loop t (Str.lower <$> keywords) = contains_any_loop t keywords.
Proof.
  induction keywords as [|k ks IH]; [done|].
  rewrite fmap_cons. cbn [contains_any_loop]. by rewrite lower_idem, IH.
Qed.

(** X5. A keyword list that holds the empty string matches every text. *)
Theorem empty_keyword_matches_everything (text : string) (keywords : list string) :
  "" ∈ keywords -> contains_any text keywords = true.
Proof.
  intros Hin. apply contains_any_spec. exists "". split; [done|].
  exists "", (Str.lower text). reflexivity.
Qed.

Lemma empty_keyword_matches_everything_witness :
  contains_any "Quarterly results published" ["RegCo"; ""] = true.
Proof.
  apply (empty_keyword_matches_everything "Quarterly results published" ["RegCo"; ""]).
  right. left.
Defined.

(** X6. The match ignores case on both sides: lower-casing the text and the
    keywords beforehand changes nothing. *)
Theorem contains_any_ignores_case_of_both (text : string) (keywords : list string) :
  contains_any (Str.lower text) (Str.lower <$> keywords) = contains_any text keywords.
Proof.
  unfold contains_any. by rewrite lower_idem, contains_any_loop_lower.
Qed.

(** X7. Matching against two lists put together is matching against one or
    the other; no list at all matches nothing. *)
Theorem contains_any_of_joined_lists (text : string) (k1 k2 : list string) :
  contains_any text (k1 ++ k2) = contains_any text k1 || contains_any text k2 /\
  contains_any text [] = false.
Proof.
  split; [apply contains_any_loop_app | reflexivity].
Qed.

(** ** The fetcher *)

Lemma dedup_by_url_sublist seen_urls items :
  dedup_by_url seen_urls items `sublist_of` items.
Proof.
  revert seen_urls. induction items as [|it rest IH]; intros seen_urls; simpl.
  - constructor.
  - case_decide; [by constructor | by constructor].
Qed.

Lemma dedup_by_url_covers seen_urls items it :
  it ∈ items -> Item.url it ∉ seen_urls ->
  exists it', it' ∈ dedup_by_url seen_urls items /\ Item.url it' = Item.url it.
Proof.
  revert seen_urls. induction items as [|a rest IH]; intros seen_urls Hin Hfresh.
  - inversion Hin.
  - simpl. case_decide as Ha.
    + apply elem_of_cons in Hin as [->|Hin]; [done|]. by apply IH.
    + destruct (decide (Item.url a = Item.url it)) as [Heq|Hne].
      * exists a. split; [left | done].
      * apply elem_of_cons in Hin as [->|Hin]; [done|].
        destruct (IH ({[Item.url a]} ∪ seen_urls) Hin) as (it' & Hin' & Hurl).
        -- intros [Hc%elem_of_singleton | Hc]%elem_of_union; [congruence | done].
        -- exists it'. split; [by right | done].
Qed.

Lemma dedup_by_url_fixed seen_urls items :
  NoDup (Item.url <$> items) ->
  (forall it, it ∈ items -> Item.url it ∉ seen_urls) ->
  dedup_by_url seen_urls items = items.
Proof.
  revert seen_urls. induction items as [|a rest IH]; intros seen_urls Hnd Hfresh; simpl.
  - reflexivity.
  - rewrite fmap_cons in Hnd. apply NoDup_cons in Hnd as [Ha Hnd].
    rewrite decide_False by (apply Hfresh; left).
    f_equal. apply IH; [done|]. intros it Hit.
    intros [Hc%elem_of_singleton | Hc]%elem_of_union.
    + apply Ha. rewrite <- Hc. apply list_elem_of_fmap. by exists it.
    + revert Hc. apply Hfresh. by right.
Qed.

(** X8. The fetcher's dedup keeps the items in their order and drops no
    URL: its output is a subsequence of the raw list, and every raw item
    has an item of its URL in the output. *)
Theorem dedup_keeps_order_and_every_url (W : Web) (src : Source) (it : Item.t) :
  it ∈ fetch_urls W (default [] (urls src)) ->
  fetch_source_items W src `sublist_of` fetch_urls W (default [] (urls src)) /\
  exists it', it' ∈ fetch_source_items W src /\ Item.url it' = Item.url it.
Proof.
  intros Hin. split; [apply dedup_by_url_sublist|].
  apply dedup_by_url_covers; [done | apply not_elem_of_empty].
Qed.

Lemma dedup_keeps_order_and_every_url_witness :
  fetch_source_items Scenario.W Scenario.src
    `sublist_of` fetch_urls Scenario.W (default [] (urls Scenario.src)) /\
  exists it', it' ∈ fetch_source_items Scenario.W Scenario.src /\
              Item.url it' = Item.url Scenario.item.
Proof.
  apply (dedup_keeps_order_and_every_url Scenario.W Scenario.src Scenario.item).
  vm_compute. left.
Defined.

(** X9. Removing duplicates a second time changes nothing. *)
Theorem dedup_by_url_is_idempotent (items : list Item.t) :
  dedup_by_url ∅ (dedup_by_url ∅ items) = dedup_by_url ∅ items.
Proof.
  apply dedup_by_url_fixed; [apply dedup_by_url_nodup|].
  intros it _. apply not_elem_of_empty.
Qed.

Lemma try_feed_length W url : (length (try_feed W url) <= 50)%nat.
Proof.
  unfold try_feed. destruct (feed W url) as [entries|]; simpl; [|lia].
  rewrite length_fmap, length_take. lia.
Qed.

Lemma try_html_length W url : (length (try_html W url) <= 50)%nat.
Proof.
  unfold try_html. destruct (page W url) as [pg|]; [|simpl; lia].
  destruct (collect_links W url (Page.anchors pg)) as [links|]; [|simpl; lia].
  pose proof (length_take links 50) as Hlen.
  destruct (take 50 links) as [|it rest] eqn:Htake.
  - simpl. lia.
  - rewrite Hlen. lia.
Qed.

Lemma fetch_urls_length W us : (length (fetch_urls W us) <= 50 * length us)%nat.
Proof.
  induction us as [|u rest IH]; simpl; [lia|].
  rewrite length_app.
  pose proof (try_feed_length W u). pose proof (try_html_length W u).
  destruct (is_probable_rss W u); lia.
Qed.

(** X10. A source yields at most 50 candidate items for each of its URLs,
    and none when it has no [urls]. *)
Theorem source_yields_at_most_50_per_url (W : Web) (src : Source) :
  (length (fetch_source_items W src) <= 50 * length (default [] (urls src)))%nat.
Proof.
  unfold fetch_source_items.
  etrans; [apply sublist_length, dedup_by_url_sublist | apply fetch_urls_length].
Qed.

Lemma fetch_urls_app W us1 us2 :
  fetch_urls W (us1 ++ us2) = fetch_urls W us1 ++ fetch_urls W us2.
Proof.
  induction us1 as [|u rest IH]; simpl; [done|]. by rewrite IH, app_assoc.
Qed.

(** X11. A URL that gives no feed entries and whose page cannot be fetched
    contributes nothing, and the items of the URLs around it are what they
    are without it. *)
Theorem failed_url_is_skipped (W : Web) (us1 us2 : list string) (u : string) :
  is_probable_rss W u = false ->
  page W u = None ->
  fetch_urls W (us1 ++ u :: us2) = fetch_urls W (us1 ++ us2).
Proof.
  intros Hrss Hpage. rewrite !fetch_urls_app. simpl.
  unfold try_html. by rewrite Hrss, Hpage.
Qed.

Lemma failed_url_is_skipped_witness :
  fetch_urls Scenario.W ([Scenario.feed_url] ++ "https://down.example/" :: [])
  = fetch_urls Scenario.W ([Scenario.feed_url] ++ []).
Proof.
  apply (failed_url_is_skipped Scenario.W [Scenario.feed_url] [] "https://down.example/");
    reflexivity.
Defined.

Lemma take_length n s : (String.length (Str.take n s) <= n)%nat.
Proof.
  revert n. induction s as [|c s IH]; intros [|n]; simpl; try lia.
  specialize (IH n). lia.
Qed.

(** X12. For a page that was fetched, [try_html] returns at most 50 items,
    each without a published time, with a title of at most 200 characters
    and a summary of at most 500.  It returns at least one when no link
    makes [urlparse] raise, and none when one does. *)
Theorem html_items_are_bounded (W : Web) (url : string) (pg : Page.t) :
  page W url = Some pg ->
  (length (try_html W url) <= 50)%nat /\
  (links_parse W url (Page.anchors pg) = true -> (1 <= length (try_html W url))%nat) /\
  (links_parse W url (Page.anchors pg) = false -> try_html W url = []) /\
  forall it, it ∈ try_html W url ->
    Item.published_ts it = None /\
    (String.length (Item.title it) <= 200)%nat /\
    (String.length (Item.summary it) <= 500)%nat.
Proof.
  intros Hpage. split; [apply try_html_length|].
  unfold try_html. rewrite Hpage.
  destruct (collect_links W url (Page.anchors pg)) as [links|] eqn:Hc.
  - split; [|split].
    + intros _. destruct (take 50 links); simpl; lia.
    + intros Hparse. apply collect_links_raises in Hparse. congruence.
    + intros it.
      pose proof (collect_links_kept W url (Page.anchors pg) links Hc) as Hk.
      apply (Forall_take _ 50%nat) in Hk.
      destruct (take 50 links) as [|a rest] eqn:Htake.
      * intros ->%list_elem_of_singleton. unfold page_item.
        cbn [Item.published_ts Item.title Item.summary].
        split; [done|]. split; apply take_length.
      * intros Hin. rewrite Forall_forall in Hk.
        destruct (Hk it Hin) as (href & text & _ & _ & -> & _).
        cbn [Item.published_ts Item.title Item.summary].
        split; [done|]. split; [apply take_length | simpl; lia].
  - split; [|split].
    + intros Hparse. apply collect_links_raises in Hc. congruence.
    + done.
    + intros it Hin. inversion Hin.
Qed.

Lemma html_items_are_bounded_witness :
  (length (try_html (Pages.W Pages.linked) Pages.url) <= 50)%nat /\
  (links_parse (Pages.W Pages.linked) Pages.url (Page.anchors Pages.linked) = true ->
   (1 <= length (try_html (Pages.W Pages.linked) Pages.url))%nat) /\
  (links_parse (Pages.W Pages.linked) Pages.url (Page.anchors Pages.linked) = false ->
   try_html (Pages.W Pages.linked) Pages.url = []) /\
  forall it, it ∈ try_html (Pages.W Pages.linked) Pages.url ->
    Item.published_ts it = None /\
    (String.length (Item.title it) <= 200)%nat /\
    (String.length (Item.summary it) <= 500)%nat.
Proof.
  apply (html_items_are_bounded (Pages.W Pages.linked) Pages.url Pages.linked).
  reflexivity.
Defined.

Lemma collect_links_complete W url anchors links href text :
  collect_links W url anchors = Some links ->
  (href, text) ∈ anchors -> text <> "" ->
  Url.netloc (Url.urlparse (resolve url href)) = Url.netloc (Url.urlparse url) ->
  article_like (resolve url href) = true ->
  {| Item.url := resolve url href; Item.title := Str.take 200 text;
     Item.summary := ""; Item.published_ts := None |} ∈ links.
Proof.
  intros Hc Hin Htext Hloc Hlike. revert links Hc.
  induction anchors as [|[h t] rest IH]; [inversion Hin|].
  intros links. cbn [collect_links]. cbv zeta.
  apply elem_of_cons in Hin as [[= <- <-]|Hin].
  - apply is_empty_false in Htext. rewrite Htext.
    destruct (parse_fails W url || parse_fails W (resolve url href)); [discriminate|].
    rewrite Hloc, String.eqb_refl, Hlike. cbn [negb].
    destruct (collect_links W url rest); [|discriminate]. intros [= <-]. left.
  - specialize (IH Hin).
    destruct (Str.is_empty t); [by apply IH|].
    destruct (parse_fails W url || parse_fails W (resolve url h)); [discriminate|].
    destruct (negb _); [by apply IH|].
    destruct (article_like (resolve url h)); [|by apply IH].
    destruct (collect_links W url rest) as [ls|]; [|discriminate].
    intros [= <-]. right. by apply IH.
Qed.

(** X13. The loop over the anchors of a page is left by an exception exactly
    when [urlparse] raises on the link of an anchor with text, or on the URL
    of the page while there is such an anchor.  When the loop completes,
    the links it has collected are exactly the items of the anchors that
    have text, are on the page's network location once resolved and contain
    an article segment: none is left out and nothing else is collected. *)
Theorem collected_links_are_exactly_the_kept (W : Web) (url : string)
    (anchors : list (string * string)) :
  (collect_links W url anchors = None <-> links_parse W url anchors = false) /\
  forall links it, collect_links W url anchors = Some links ->
    (it ∈ links <-> kept_link url anchors it).
Proof.
  split; [apply collect_links_raises|].
  intros links it Hc. split.
  - intros Hin. pose proof (collect_links_kept W url anchors links Hc) as Hk.
    rewrite Forall_forall in Hk. by apply Hk.
  - intros (href & text & Hin & Htext & -> & Hloc & Hseg).
    eapply collect_links_complete; [exact Hc | done | done | done |].
    by apply article_like_spec.
Qed.

(** ** The payload *)

Lemma insert_desc_perm a l : insert_desc a l ≡ₚ a :: l.
Proof.
  induction l as [|b rest IH]; simpl; [done|].
  destruct (Article.published_ts a <? Article.published_ts b); [|done].
  rewrite IH. apply Permutation_swap.
Qed.

Lemma sorted_desc_perm found : sorted_desc found ≡ₚ found.
Proof.
  unfold sorted_desc. induction found as [|a rest IH]; simpl; [done|].
  by rewrite insert_desc_perm, IH.
Qed.

Lemma insert_desc_sorted a l :
  StronglySorted not_older l -> StronglySorted not_older (insert_desc a l).
Proof.
  induction 1 as [|b rest Hs IH Hall]; simpl; [repeat constructor|].
  destruct (Article.published_ts a <? Article.published_ts b) eqn:Hlt.
  - apply Z.ltb_lt in Hlt. constructor; [exact IH|].
    rewrite insert_desc_perm. constructor; [unfold not_older; lia | exact Hall].
  - apply Z.ltb_ge in Hlt. constructor; [by constructor|].
    constructor; [exact Hlt|].
    eapply Forall_impl; [exact Hall|]. unfold not_older. intros c Hc. lia.
Qed.

Lemma insert_desc_stable (t : Z) a l :
  filter (fun b => Article.published_ts b = t) (insert_desc a l)
  = filter (fun b => Article.published_ts b = t) (a :: l).
Proof.
  induction l as [|b rest IH]; simpl; [done|].
  destruct (Article.published_ts a <? Article.published_ts b) eqn:Hlt; [|done].
  apply Z.ltb_lt in Hlt. rewrite !filter_cons in *.
  repeat case_decide; try lia; rewrite IH; done.
Qed.

(** X14. The order of the payload: the sorted list holds the articles that
    were found, each as often as it was found, from the most recent to the
    oldest, and articles of one timestamp stay in the order in which they
    were found. *)
Theorem payload_order_is_a_stable_descending_sort (found : list Article.t) (t : Z) :
  sorted_desc found ≡ₚ found /\
  StronglySorted not_older (sorted_desc found) /\
  filter (fun b => Article.published_ts b = t) (sorted_desc found)
  = filter (fun b => Article.published_ts b = t) found.
Proof.
  split; [apply sorted_desc_perm|].
  unfold sorted_desc. induction found as [|a rest (Hs & Hst)]; simpl.
  - split; [constructor | done].
  - split; [by apply insert_desc_sorted|].
    rewrite insert_desc_stable, !filter_cons. by rewrite Hst.
Qed.

Lemma section_urls_blocks arts :
  section_urls (arts ≫= article_blocks) = Article.url <$> arts.
Proof.
  induction arts as [|a rest IH]; [done|].
  unfold section_urls in *. rewrite bind_cons. unfold article_blocks at 1.
  cbn [app omap list_omap]. simpl. by rewrite IH.
Qed.

Lemma no_results_not_in_blocks arts : NoResults ∉ arts ≫= article_blocks.
Proof.
  induction arts as [|a rest IH]; [by intros H; inversion H|].
  rewrite bind_cons. unfold article_blocks at 1. cbn [app].
  intros H. apply elem_of_cons in H as [H|H]; [discriminate|].
  apply elem_of_cons in H as [H|H]; [discriminate | done].
Qed.

Lemma article_blocks_length (l : list Article.t) :
  length (l ≫= article_blocks) = (2 * length l)%nat.
Proof.
  induction l as [|x l IH]; [done|]. rewrite bind_cons, length_app, IH. simpl. lia.
Qed.

(** X15. The payload is never empty.  For no article it is the single
    no-results section, and the clock is not read; for articles it is the
    header, the context with the reading of the clock and a divider,
    followed by one section and one divider for each article, most recent
    first, without the no-results section.  The ledger is not touched. *)
Theorem payload_shape (clock : nat -> Z) (found : list Article.t) (st : State)
    (blocks : list Block) (st' : State) :
  build_slack_blocks clock found st = (Return blocks, st') ->
  seen st' = seen st /\
  (found = [] -> blocks = [NoResults] /\ st' = st) /\
  (found <> [] ->
     take 3 blocks = [Header; Context (clock (ticks st)); Divider] /\
     length blocks = (3 + 2 * length found)%nat /\
     section_urls blocks = Article.url <$> sorted_desc found /\
     NoResults ∉ blocks).
Proof.
  destruct found as [|a rest].
  - simpl. run_monad. intros [= <- <-].
    split; [done|]. split; [done | by intros []].
  - unfold build_slack_blocks, mbind, M_bind, mret, M_ret, time_time.
    intros [= <- <-]. cbn [seen ticks].
    split; [done|]. split; [discriminate|]. intros _.
    split; [reflexivity|]. split; [|split].
    + cbn [length]. rewrite article_blocks_length.
      rewrite (Permutation_length (insert_desc_perm _ _)). cbn [length].
      rewrite (Permutation_length (sorted_desc_perm rest)). lia.
    + apply (section_urls_blocks (sorted_desc (a :: rest))).
    + intros H. apply elem_of_cons in H as [H|H]; [discriminate|].
      apply elem_of_cons in H as [H|H]; [discriminate|].
      apply elem_of_cons in H as [H|H]; [discriminate|].
      by apply no_results_not_in_blocks in H.
Qed.

Lemma payload_shape_witness :
  seen {| seen := seen Scenario.st2; ticks := 3 |} = seen Scenario.st2 /\
  ([article_of Scenario.W Scenario.src Scenario.item 1700000000] = [] ->
     scenario_blocks = [NoResults] /\
     {| seen := seen Scenario.st2; ticks := 3 |} = Scenario.st2) /\
  ([article_of Scenario.W Scenario.src Scenario.item 1700000000] <> [] ->
     take 3 scenario_blocks
     = [Header; Context (Scenario.readings (ticks Scenario.st2)); Divider] /\
     length scenario_blocks
     = (3 + 2 * length [article_of Scenario.W Scenario.src Scenario.item 1700000000])%nat /\
     section_urls scenario_blocks
     = Article.url <$> sorted_desc [article_of Scenario.W Scenario.src Scenario.item 1700000000] /\
     NoResults ∉ scenario_blocks).
Proof.
  apply (payload_shape Scenario.readings
           [article_of Scenario.W Scenario.src Scenario.item 1700000000] Scenario.st2
           scenario_blocks {| seen := seen Scenario.st2; ticks := 3 |}).
  vm_compute. reflexivity.
Defined.




(** ** The run as a whole *)

(** X17. What a run of [main] does to the outside has one of three shapes:
    nothing at all, and then the run ended with an exception; the save of
    the ledger followed by the print of the payload, when the webhook is
    blank, and then the run ended normally; the save followed by one post
    to the webhook, and then the run ended as the post did.  The run never
    delivers before it has saved and never saves twice. *)
Theorem run_saves_once_then_delivers_once
    (w : World) (out : Outcome unit) (events : list Event) :
  main w = (out, events) ->
  (events = [] /\ exists e, out = Raise e) \/
  (exists m blocks,
     events = [SaveSeen m; Print blocks] /\ out = Return tt /\
     Str.strip (webhook_env w) = "") \/
  (exists m blocks,
     events = [SaveSeen m; Post (Str.strip (webhook_env w)) blocks] /\
     out = post_to_slack w (Str.strip (webhook_env w)) blocks /\
     Str.strip (webhook_env w) <> "").
Proof.
  unfold main. destruct (config_file w) as [cfg|].
  2: { intros [= <- <-]. left. eauto. }
  destruct (collect w cfg _) as [[found|e] st].
  2: { intros [= <- <-]. left. eauto. }
  destruct (build_slack_blocks_returns (clock w) found st) as (blocks & st' & ->).
  destruct (Str.is_empty (Str.strip (webhook_env w))) eqn:Hhook; intros [= <- <-].
  - right. left. exists (seen st), blocks. split; [done|]. split; [done|].
    by destruct (Str.strip (webhook_env w)).
  - right. right. exists (seen st), blocks. split; [done|]. split; [done|].
    by apply is_empty_false.
Qed.

Lemma run_saves_once_then_delivers_once_witness :
  ([SaveSeen (seen Scenario.st2); Print scenario_blocks] = [] /\
   exists e, Return tt = Raise e) \/
  (exists m blocks,
     [SaveSeen (seen Scenario.st2); Print scenario_blocks] = [SaveSeen m; Print blocks] /\
     Return tt = Return tt /\
     Str.strip (webhook_env Scenario.world) = "") \/
  (exists m blocks,
     [SaveSeen (seen Scenario.st2); Print scenario_blocks]
     = [SaveSeen m; Post (Str.strip (webhook_env Scenario.world)) blocks] /\
     Return tt = post_to_slack Scenario.world (Str.strip (webhook_env Scenario.world)) blocks /\
     Str.strip (webhook_env Scenario.world) <> "").
Proof.
  apply (run_saves_once_then_delivers_once Scenario.world (Return tt)
           [SaveSeen (seen Scenario.st2); Print scenario_blocks]).
  vm_compute. reflexivity.
Defined.

(** X18. With no sources in the configuration, absent or empty, a run looks
    up no keyword list and accepts nothing: it saves the ledger as it was
    loaded, the empty one for a missing or malformed file, and delivers the
    no-results payload, printing it when the webhook is blank and posting
    it otherwise. *)
Theorem run_without_sources (w : World) (cfg : Config) :
  config_file w = Some cfg ->
  default [] (sources cfg) = [] ->
  main w =
    (if Str.is_empty (Str.strip (webhook_env w)) then Return tt
     else post_to_slack w (Str.strip (webhook_env w)) [NoResults],
     [SaveSeen (load_seen (seen_file w));
      if Str.is_empty (Str.strip (webhook_env w)) then Print [NoResults]
      else Post (Str.strip (webhook_env w)) [NoResults]]).
Proof.
  intros Hcfg Hsrc. unfold main, collect, filter_and_collect.
  rewrite Hcfg, Hsrc. run_monad.
  by destruct (Str.is_empty (Str.strip (webhook_env w))).
Qed.

Lemma run_without_sources_witness :
  main world_failing_hook =
    (if Str.is_empty (Str.strip (webhook_env world_failing_hook)) then Return tt
     else post_to_slack world_failing_hook (Str.strip (webhook_env world_failing_hook))
            [NoResults],
     [SaveSeen (load_seen (seen_file world_failing_hook));
      if Str.is_empty (Str.strip (webhook_env world_failing_hook)) then Print [NoResults]
      else Post (Str.strip (webhook_env world_failing_hook)) [NoResults]]).
Proof.
  apply (run_without_sources world_failing_hook cfg_empty); reflexivity.
Defined.

(** The run with the failing webhook: the ledger is saved, the payload is
    posted to the stripped address, and the status 500 is raised. *)
Example run_with_failing_webhook :
  main world_failing_hook
  = (Raise (RuntimeError 500),
     [SaveSeen ∅; Post "https://hooks.example/T1" [NoResults]]).
Proof. vm_compute. reflexivity. Qed.

(** ** Slugs *)

Lemma sub_runs_ok b s : runs_ok b (sub_runs b s) = true.
Proof.
  revert b. induction s as [|c r IH]; intros b; simpl; [done|].
  destruct (is_slug_char c) eqn:Hc; simpl.
  - by rewrite Hc.
  - destruct b; [apply IH|]. simpl. apply IH.
Qed.

Lemma runs_ok_weaken s : runs_ok true s = true -> runs_ok false s = true.
Proof.
  destruct s as [|c r]; simpl; [done|].
  destruct (is_slug_char c); [done|]. destruct (ascii_dec c "-"); done.
Qed.

Lemma runs_ok_fixed b s : runs_ok b s = true -> sub_runs b s = s.
Proof.
  revert b. induction s as [|c r IH]; intros b; simpl; [done|].
  destruct (is_slug_char c).
  - intros H. by rewrite IH.
  - destruct (ascii_dec c "-") as [->|]; [|done].
    destruct b; simpl; [done|]. intros H. by rewrite IH.
Qed.

Lemma slug_or_dash_lower c : slug_or_dash c = true -> Str.lower_ascii c = c.
Proof. destruct c as [[] [] [] [] [] [] [] []]; vm_compute; congruence. Qed.

Lemma runs_ok_chars b s : runs_ok b s = true -> Str.forallb slug_or_dash s = true.
Proof.
  revert b. induction s as [|c r IH]; intros b; simpl; [done|].
  unfold slug_or_dash at 1. destruct (is_slug_char c); simpl; [apply IH|].
  destruct (ascii_dec c "-"); [|done].
  intros [_ H]%andb_true_iff. by eapply IH.
Qed.

Lemma forallb_lower_fixed s :
  Str.forallb slug_or_dash s = true -> Str.lower s = s.
Proof.
  induction s as [|c r IH]; simpl; [done|].
  intros [Hc Hr]%andb_true_iff. by rewrite (slug_or_dash_lower c Hc), IH.
Qed.

Lemma runs_ok_no_double b s : runs_ok b s = true -> Str.contains "--" s = false.
Proof.
  revert b. induction s as [|c r IH]; intros b; [done|].
  cbn [runs_ok Str.contains]. intros H.
  assert (Hr : Str.contains "--" r = false).
  { destruct (is_slug_char c); [by eapply IH|].
    destruct (ascii_dec c "-"); [|done].
    apply andb_true_iff in H as [_ H]. by eapply IH. }
  rewrite Hr, orb_false_r. cbn [Str.startswith].
  destruct (ascii_dec "-" c) as [<-|]; [|done].
  destruct r as [|c' r']; [done|].
  destruct (ascii_dec "-" c') as [<-|]; [|done].
  exfalso. simpl in H. apply andb_true_iff in H as [_ H]. discriminate.
Qed.

Lemma lstrip_char_ok b s :
  runs_ok b s = true -> runs_ok false (lstrip_char "-" s) = true.
Proof.
  revert b. induction s as [|c r IH]; intros b; simpl; [done|].
  destruct (ascii_dec c "-") as [->|Hne].
  - simpl. intros [_ H]%andb_true_iff. by eapply IH.
  - simpl. destruct (is_slug_char c); [done|].
    by destruct (ascii_dec c "-").
Qed.

Lemma lstrip_char_no_lead d s : Str.startswith (String d "") (lstrip_char d s) = false.
Proof.
  induction s as [|c r IH]; simpl; [done|].
  destruct (ascii_dec c d) as [->|Hne]; [done|]. simpl.
  destruct (ascii_dec d c); [congruence | done].
Qed.

Lemma lstrip_char_fixed d s :
  Str.startswith (String d "") s = false -> lstrip_char d s = s.
Proof.
  destruct s as [|c r]; simpl; [done|].
  destruct (ascii_dec d c) as [->|Hne]; [done|].
  destruct (ascii_dec c d); [congruence | done].
Qed.

Lemma rstrip_char_ok b s :
  runs_ok b s = true -> runs_ok b (rstrip_char "-" s) = true.
Proof.
  revert b. induction s as [|c r IH]; intros b; [done|].
  cbn [rstrip_char]. intros H.
  destruct (rstrip_char "-" r) as [|c' r'] eqn:Hr.
  - destruct (ascii_dec c "-"); [done|]. simpl in *.
    destruct (is_slug_char c); [done|]. by destruct (ascii_dec c "-").
  - simpl in H. cbn [runs_ok].
    destruct (is_slug_char c); [by apply IH|].
    destruct (ascii_dec c "-"); [|done].
    apply andb_true_iff in H as [-> H]. by apply IH.
Qed.

Lemma rstrip_char_lead d s :
  Str.startswith (String d "") s = false ->
  Str.startswith (String d "") (rstrip_char d s) = false.
Proof.
  destruct s as [|c r]; [done|]. cbn [rstrip_char].
  destruct (rstrip_char d r); [|done].
  by destruct (ascii_dec c d).
Qed.

Lemma rstrip_char_cons d c r :
  rstrip_char d (String c r)
  = match rstrip_char d r with
    | EmptyString => if ascii_dec c d then EmptyString else String c EmptyString
    | r' => String c r'
    end.
Proof. reflexivity. Qed.

Lemma rstrip_char_idem d s : rstrip_char d (rstrip_char d s) = rstrip_char d s.
Proof.
  induction s as [|c r IH]; [done|]. cbn [rstrip_char].
  destruct (rstrip_char d r) as [|c' r'] eqn:Hr.
  - destruct (ascii_dec c d) as [->|Hne]; [done|].
    cbn [rstrip_char]. by destruct (ascii_dec c d).
  - rewrite rstrip_char_cons, IH. reflexivity.
Qed.

Lemma rstrip_char_no_trail d s : ends_with_char d (rstrip_char d s) = false.
Proof.
  induction s as [|c r IH]; [done|]. cbn [rstrip_char].
  destruct (rstrip_char d r) as [|c' r'] eqn:Hr.
  - destruct (ascii_dec c d) as [->|Hne]; [done|]. simpl.
    by destruct (ascii_dec c d).
  - exact IH.
Qed.

Lemma slugify_ok s : runs_ok false (slugify s) = true.
Proof.
  unfold slugify, strip_char.
  apply rstrip_char_ok. eapply lstrip_char_ok. apply sub_runs_ok.
Qed.

(** X19. A slug holds only lower-case letters, digits and dashes, never two
    dashes in a row, and neither starts nor ends with a dash. *)
Theorem slugify_shape (s : string) :
  Str.forallb slug_or_dash (slugify s) = true /\
  Str.contains "--" (slugify s) = false /\
  Str.startswith "-" (slugify s) = false /\
  ends_with_char "-" (slugify s) = false.
Proof.
  split; [eapply runs_ok_chars, slugify_ok|].
  split; [eapply runs_ok_no_double, slugify_ok|].
  unfold slugify, strip_char. split.
  - apply rstrip_char_lead, lstrip_char_no_lead.
  - apply rstrip_char_no_trail.
Qed.

(** X20. A slug is its own slug. *)
Theorem slugify_is_idempotent (s : string) : slugify (slugify s) = slugify s.
Proof.
  pose proof (slugify_ok s) as Hok.
  unfold slugify at 1.
  rewrite (forallb_lower_fixed _ (runs_ok_chars _ _ Hok)), (runs_ok_fixed _ _ Hok).
  unfold slugify, strip_char.
  rewrite lstrip_char_fixed by apply rstrip_char_lead, lstrip_char_no_lead.
  apply rstrip_char_idem.
Qed.

Example slugify_samples :
  slugify "Hello, World!" = "hello-world" /\ slugify "--a  b--" = "a-b" /\
  slugify "!!!" = "" /\ slugify "A_b-C 9" = "a-b-c-9".
Proof. repeat split; vm_compute; reflexivity. Qed.

(** ** Identifiers *)

Lemma string_length_app a b :
  String.length (a +:+ b) = (String.length a + String.length b)%nat.
Proof. induction a as [|c a IH]; simpl; [done | by rewrite IH]. Qed.

Lemma forallb_app p a b :
  Str.forallb p (a +:+ b) = Str.forallb p a && Str.forallb p b.
Proof. induction a as [|c a IH]; simpl; [done | by rewrite IH, andb_assoc]. Qed.

Lemma hex_digit_is_hex n : 0 <= n < 16 -> is_lower_hex (Sha1.hex_digit n) = true.
Proof.
  intros Hn. rewrite <- (Z2Nat.id n) by lia.
  assert (Hk : (Z.to_nat n < 16)%nat) by lia.
  revert Hk. generalize (Z.to_nat n). intros k Hk.
  do 16 (destruct k as [|k]; [reflexivity|]). lia.
Qed.

Lemma nibble_bounds x : 0 <= Z.land x 15 < 16.
Proof.
  change 15 with (Z.ones 4). rewrite Z.land_ones by lia.
  apply Z.mod_pos_bound. lia.
Qed.

Lemma hex32_shape x :
  String.length (Sha1.hex32 x) = 8%nat /\ Str.forallb is_lower_hex (Sha1.hex32 x) = true.
Proof.
  unfold Sha1.hex32. cbn [fmap list_fmap string_of_list_ascii String.length Str.forallb].
  split; [reflexivity|].
  rewrite !hex_digit_is_hex by apply nibble_bounds. reflexivity.
Qed.

(** X21. The identifier of a URL is a string of 40 lower-case hexadecimal
    digits. *)
Theorem hash_id_is_40_hex_digits (url : string) :
  String.length (hash_id url) = 40%nat /\
  Str.forallb is_lower_hex (hash_id url) = true.
Proof.
  unfold hash_id, Sha1.hexdigest.
  destruct (Sha1.digest (Sha1.encode url)) as [[[[h0 h1] h2] h3] h4].
  rewrite !string_length_app, !forallb_app.
  destruct (hex32_shape h0) as [-> ->], (hex32_shape h1) as [-> ->],
    (hex32_shape h2) as [-> ->], (hex32_shape h3) as [-> ->],
    (hex32_shape h4) as [-> ->].
  split; reflexivity.
Qed.

(** ** Links that start with a slash *)

Lemma take_app_length a b : Str.take (String.length a) (a +:+ b) = a.
Proof. induction a as [|c a IH]; simpl; [by destruct b | by rewrite IH]. Qed.

Lemma drop_app_length a b : Str.drop (String.length a) (a +:+ b) = b.
Proof. induction a as [|c a IH]; simpl; [done | exact IH]. Qed.

Lemma scheme_char_not_colon c : Url.is_scheme_char c = true -> c <> ":"%char.
Proof. destruct c as [[] [] [] [] [] [] [] []]; vm_compute; congruence. Qed.

Lemma scheme_char_lower c :
  Url.is_scheme_char c = true -> Url.is_scheme_char (Str.lower_ascii c) = true.
Proof. destruct c as [[] [] [] [] [] [] [] []]; vm_compute; congruence. Qed.

Lemma alpha_lower c : Url.is_alpha c = true -> Url.is_alpha (Str.lower_ascii c) = true.
Proof. destruct c as [[] [] [] [] [] [] [] []]; vm_compute; congruence. Qed.

Lemma forallb_scheme_lower s :
  Str.forallb Url.is_scheme_char s = true ->
  Str.forallb Url.is_scheme_char (Str.lower s) = true.
Proof.
  induction s as [|c r IH]; simpl; [done|].
  intros [Hc Hr]%andb_true_iff. by rewrite scheme_char_lower, IH.
Qed.

Lemma find_colon_after_scheme a b :
  Str.forallb Url.is_scheme_char a = true ->
  Str.find_char ":" (a +:+ String ":" b) = Some (String.length a).
Proof.
  induction a as [|c a IH]; simpl; [done|].
  intros [Hc Ha]%andb_true_iff.
  destruct (ascii_dec c ":") as [->|Hne]; [by apply scheme_char_not_colon in Hc|].
  by rewrite IH.
Qed.

Lemma find_if_after a c b (p : ascii -> bool) :
  Str.forallb (fun x => negb (p x)) a = true -> p c = true ->
  Str.find_if p (a +:+ String c b) = Some (String.length a).
Proof.
  intros Ha Hc. induction a as [|x a IH]; simpl; [by rewrite Hc|].
  simpl in Ha. apply andb_true_iff in Ha as [Hx Ha].
  apply negb_true_iff in Hx. by rewrite Hx, IH.
Qed.

Lemma find_if_take p s i :
  Str.find_if p s = Some i -> Str.forallb (fun x => negb (p x)) (Str.take i s) = true.
Proof.
  revert i. induction s as [|c r IH]; intros i; simpl; [done|].
  destruct (p c) eqn:Hc; [by intros [= <-]|].
  destruct (Str.find_if p r) as [j|]; simpl; [|done].
  intros [= <-]. simpl. by rewrite Hc, IH.
Qed.

Lemma find_if_none p s :
  Str.find_if p s = None -> Str.forallb (fun x => negb (p x)) s = true.
Proof.
  induction s as [|c r IH]; simpl; [done|].
  destruct (p c) eqn:Hc; [done|].
  destruct (Str.find_if p r); simpl; [done|]. intros _. by rewrite IH.
Qed.

(** The network location that [urlparse] returns holds no slash, question
    mark or hash. *)
Lemma netloc_has_no_delimiter url :
  Str.forallb (fun x => negb (Url.is_netloc_end x)) (Url.netloc (Url.urlparse url)) = true.
Proof.
  unfold Url.urlparse. destruct (Url.split_scheme url) as [sch r1].
  destruct (Url.split_netloc r1) as [loc r2] eqn:Hloc.
  destruct (Url.split_once "#" r2) as [r3 frag], (Url.split_once "?" r3) as [pth qry].
  simpl. revert Hloc. unfold Url.split_netloc.
  destruct (Str.startswith "//" r1); [|by intros [= <- <-]].
  destruct (Str.find_if Url.is_netloc_end (Str.drop 2 r1)) as [i|] eqn:Hf;
    intros [= <- <-]; [by apply find_if_take | by apply find_if_none].
Qed.

(** The scheme that [urlparse] returns, when there is one, is a letter
    followed by scheme characters, in lower case. *)
Lemma scheme_is_well_formed url :
  Url.scheme (Url.urlparse url) <> "" ->
  Url.starts_alpha (Url.scheme (Url.urlparse url)) = true /\
  Str.forallb Url.is_scheme_char (Url.scheme (Url.urlparse url)) = true /\
  Str.lower (Url.scheme (Url.urlparse url)) = Url.scheme (Url.urlparse url).
Proof.
  unfold Url.urlparse. destruct (Url.split_scheme url) as [sch r1] eqn:Hsch.
  destruct (Url.split_netloc r1) as [loc r2].
  destruct (Url.split_once "#" r2) as [r3 frag], (Url.split_once "?" r3) as [pth qry].
  simpl. revert Hsch. unfold Url.split_scheme.
  destruct (Str.find_char ":" url) as [[|i]|]; try (intros [= <- <-]; done).
  destruct (Url.starts_alpha url && _) eqn:Hok; [|intros [= <- <-]; done].
  apply andb_true_iff in Hok as [Halpha Hchars].
  intros [= <- <-] _. split; [|split].
  - destruct url as [|c r]; [done|]. simpl in *. by apply alpha_lower.
  - by apply forallb_scheme_lower.
  - apply lower_idem.
Qed.

Lemma urlparse_of_resolved sch loc rest :
  sch <> "" ->
  Url.starts_alpha sch = true ->
  Str.forallb Url.is_scheme_char sch = true ->
  Str.lower sch = sch ->
  Str.forallb (fun x => negb (Url.is_netloc_end x)) loc = true ->
  Url.netloc (Url.urlparse (sch +:+ "://" +:+ loc +:+ String "/" rest)) = loc.
Proof.
  intros Hne Halpha Hchars Hlower Hloc.
  assert (Hs : Url.split_scheme (sch +:+ "://" +:+ loc +:+ String "/" rest)
               = (sch, "//" +:+ loc +:+ String "/" rest)).
  { unfold Url.split_scheme.
    change (sch +:+ "://" +:+ loc +:+ String "/" rest)
      with (sch +:+ String ":" ("//" +:+ loc +:+ String "/" rest)).
    rewrite find_colon_after_scheme by done.
    assert (Hd : forall a b x, Str.drop (S (String.length a)) (a +:+ String x b) = b).
    { intros a b x. induction a as [|y a IH]; simpl; [done | exact IH]. }
    assert (Ha : forall b, Url.starts_alpha (sch +:+ b) = true).
    { intros b. destruct sch; [done | exact Halpha]. }
    destruct (String.length sch) as [|i] eqn:Hlen; [by destruct sch|].
    rewrite <- Hlen.
    by rewrite take_app_length, Hchars, Hlower, Hd, Ha. }
  assert (Hn : Url.split_netloc ("//" +:+ loc +:+ String "/" rest)
               = (loc, String "/" rest)).
  { unfold Url.split_netloc.
    change (Str.startswith "//" ("//" +:+ loc +:+ String "/" rest)) with true.
    change (Str.drop 2 ("//" +:+ loc +:+ String "/" rest)) with (loc +:+ String "/" rest).
    cbv iota. rewrite find_if_after by done.
    by rewrite take_app_length, drop_app_length. }
  unfold Url.urlparse. rewrite Hs, Hn.
  destruct (Url.split_once "#" _) as [r3 frag], (Url.split_once "?" r3) as [pth qry].
  reflexivity.
Qed.

(** X22. On a page whose URL has a scheme, every link that starts with a
    slash passes the host test after it has been resolved: the resolved
    link has the network location of the page.  This includes a link that
    starts with two slashes and names another host. *)
Theorem link_with_leading_slash_is_on_site (url href : string) :
  Url.scheme (Url.urlparse url) <> "" ->
  Str.startswith "/" href = true ->
  Url.netloc (Url.urlparse (resolve url href)) = Url.netloc (Url.urlparse url).
Proof.
  intros Hsch Hslash. unfold resolve. rewrite Hslash.
  destruct (scheme_is_well_formed url Hsch) as (Halpha & Hchars & Hlower).
  destruct href as [|c h]; [done|]. cbn [Str.startswith] in Hslash.
  destruct (ascii_dec "/" c) as [<-|]; [|done].
  apply urlparse_of_resolved; try done. apply netloc_has_no_delimiter.
Qed.

Lemma link_with_leading_slash_is_on_site_witness :
  Url.netloc (Url.urlparse (resolve Pages.url "//cdn.example/blog/x"))
  = Url.netloc (Url.urlparse Pages.url).
Proof.
  apply (link_with_leading_slash_is_on_site Pages.url "//cdn.example/blog/x").
  - vm_compute. discriminate.
  - reflexivity.
Defined.
